(** * WikipediaPathFinder: a shallow embedding of [script.py]

    The development follows the layout of the Python class: Python string
    primitives, the link classifier [_is_valid_wikipedia_link], the URL
    normaliser [normalize_url] (over a model of [urllib.parse.urlparse]),
    the rate limiter and the cached fetcher, and the breadth-first search
    [find_path].  The model comes first, then the facts about it, then the
    statements C1 to C10 about the program.

    Python [str] values are modelled as [string], i.e. as the UTF-8 bytes of
    the text.  Every string operation the program uses ([startswith], [in],
    [split], [find], [rstrip], slicing at a found position) commutes with
    UTF-8 encoding, so nothing is lost by working on bytes. *)

From Equations Require Import Equations.
From Stdlib Require Import Ascii String QArith Lqa Sorted.
From stdpp Require Import gmap strings list.

Local Open Scope bool_scope.

(** stdpp keeps [String.append] folded under [simpl]; the proofs below
    compute with it. *)
#[local] Arguments String.append !s1 s2 : simpl nomatch.


(** * The model *)

(** ** Python string primitives *)

Module PyStr.

(** [strip_prefix p s] is [Some r] when [s = p + r]. *)
Fixpoint strip_prefix (p s : string) : option string :=
  match p, s with
  | EmptyString, _ => Some s
  | String a p', String b s' =>
      if Ascii.eqb a b then strip_prefix p' s' else None
  | String _ _, EmptyString => None
  end.

(** [s.startswith(p)] *)
Definition startswith (p s : string) : bool :=
  match strip_prefix p s with Some _ => true | None => false end.

(** [p in s] for strings: [p] occurs in [s] as a substring. *)
Fixpoint contains (p s : string) : bool :=
  startswith p s ||
  match s with
  | EmptyString => false
  | String _ s' => contains p s'
  end.

(** [c in s] for a single character. *)
Fixpoint has_char (c : ascii) (s : string) : bool :=
  match s with
  | EmptyString => false
  | String a s' => Ascii.eqb a c || has_char c s'
  end.

(** [s.partition(sep)] at the first occurrence of [sep]; [None] when [sep]
    does not occur. *)
Fixpoint partition (sep s : string) : option (string * string) :=
  match strip_prefix sep s with
  | Some rest => Some (EmptyString, rest)
  | None =>
      match s with
      | EmptyString => None
      | String c s' =>
          match partition sep s' with
          | Some (b, a) => Some (String c b, a)
          | None => None
          end
      end
  end.

Lemma strip_prefix_length p s r :
  strip_prefix p s = Some r →
  String.length s = String.length p + String.length r.
Proof.
  revert s; induction p as [|a p IH]; intros [|b s]; simpl; try congruence.
  - intros [= <-]. reflexivity.
  - intros [= <-]. reflexivity.
  - destruct (Ascii.eqb a b); [|congruence].
    intros H. rewrite (IH _ H). reflexivity.
Qed.

Lemma partition_length sep s b a :
  partition sep s = Some (b, a) →
  String.length s = String.length b + String.length sep + String.length a.
Proof.
  revert b; induction s as [|c s IH]; intros b; simpl.
  - destruct (strip_prefix sep EmptyString) eqn:E; [|congruence].
    intros [= <- <-]. apply strip_prefix_length in E. simpl in *. lia.
  - destruct (strip_prefix sep (String c s)) eqn:E.
    + intros [= <- <-]. apply strip_prefix_length in E. simpl in *. lia.
    + destruct (partition sep s) as [[b' a']|]; [|congruence].
      intros [= <- <-]. simpl. rewrite (IH _ eq_refl). lia.
Qed.

Definition inspect {A} (a : A) : {b | a = b} := exist _ a eq_refl.

(** [s.split(sep)]: the pieces between the non-overlapping occurrences of
    [sep], scanned from the left.  Python raises [ValueError] on an empty
    separator; the program only splits on the literal ['/wiki/'], and the
    first clause is there to make the function total. *)
Equations? split (sep s : string) : list string by wf (String.length s) lt :=
  split EmptyString s := [s];
  split (String c sep') s with inspect (partition (String c sep') s) := {
    | exist _ None _ := [s];
    | exist _ (Some (b, a)) e := b :: split (String c sep') a }.
Proof. apply partition_length in e. simpl in e. lia. Qed.

(** [l[-1]] on a non-empty list of strings. *)
Definition last_piece (l : list string) : string := List.last l EmptyString.

(** [s.rstrip(c)] for a one-character set: drops every trailing [c]. *)
Fixpoint rstrip (c : ascii) (s : string) : string :=
  match s with
  | EmptyString => EmptyString
  | String a s' =>
      match rstrip c s' with
      | EmptyString => if Ascii.eqb a c then EmptyString else String a EmptyString
      | r => String a r
      end
  end.

(** [s.lstrip(chars)] with the character set given as a predicate. *)
Fixpoint lstrip (f : ascii → bool) (s : string) : string :=
  match s with
  | EmptyString => EmptyString
  | String a s' => if f a then lstrip f s' else s
  end.

(** [s.replace(b, '')] repeated for every [b] of a set of characters. *)
Fixpoint remove_chars (f : ascii → bool) (s : string) : string :=
  match s with
  | EmptyString => EmptyString
  | String a s' => if f a then remove_chars f s' else String a (remove_chars f s')
  end.

(** Every character of [s] satisfies [f]. *)
Fixpoint all_chars (f : ascii → bool) (s : string) : bool :=
  match s with
  | EmptyString => true
  | String a s' => f a && all_chars f s'
  end.

(** [s.lower()] on ASCII letters. *)
Definition lower_char (c : ascii) : ascii :=
  let n := nat_of_ascii c in
  if (65 <=? n)%nat && (n <=? 90)%nat then ascii_of_nat (n + 32) else c.

Fixpoint lower (s : string) : string :=
  match s with
  | EmptyString => EmptyString
  | String a s' => String (lower_char a) (lower s')
  end.

(** [s.find(c)] as a cut: the text before and after the first [c]. *)
Fixpoint cut (c : ascii) (s : string) : option (string * string) :=
  match s with
  | EmptyString => None
  | String a s' =>
      if Ascii.eqb a c then Some (EmptyString, s')
      else match cut c s' with
           | Some (b, r) => Some (String a b, r)
           | None => None
           end
  end.

(** The text before and after the last [c] ([s.rfind(c)]). *)
Fixpoint rcut (c : ascii) (s : string) : option (string * string) :=
  match s with
  | EmptyString => None
  | String a s' =>
      match rcut c s' with
      | Some (b, r) => Some (String a b, r)
      | None => if Ascii.eqb a c then Some (EmptyString, s') else None
      end
  end.

(** [none_of bad s]: no character of [bad] occurs in [s]. *)
Definition none_of (bad s : string) : bool :=
  all_chars (λ c, negb (has_char c bad)) s.

(** [s[-1]], when there is one. *)
Fixpoint last_char (s : string) : option ascii :=
  match s with
  | EmptyString => None
  | String a EmptyString => Some a
  | String _ s' => last_char s'
  end.

(** [s.isascii()]: every byte is below 128. *)
Definition isascii (s : string) : bool :=
  all_chars (λ c, (nat_of_ascii c <? 128)%nat) s.

(** [s.split(c)] for a separator of one character. *)
Fixpoint split_char (c : ascii) (s : string) : list string :=
  match s with
  | EmptyString => [EmptyString]
  | String a s' =>
      if Ascii.eqb a c then EmptyString :: split_char c s'
      else match split_char c s' with
           | piece :: pieces => String a piece :: pieces
           | [] => [String a EmptyString]
           end
  end.

End PyStr.

Import PyStr.

(** ** Outcomes of Python calls *)

Inductive exn := ValueError | IndexError.

(** A call returns a value, raises, or blocks for ever (a [Semaphore]
    whose counter is zero, on the single thread of the search). *)
Inductive outcome (A : Type) : Type :=
| Return (a : A)
| Raise (e : exn)
| Block.
Arguments Return {A} a.
Arguments Raise {A} e.
Arguments Block {A}.

(** Sequencing: the first call that raises or blocks ends the computation.
    With this instance [x ← m; k] is stdpp's notation for it. *)
#[global] Instance outcome_bind : MBind outcome := λ A B k m,
  match m with
  | Return a => k a
  | Raise e => Raise e
  | Block => Block
  end.


(** ** The link classifier *)

Definition excluded_prefixes : list string :=
  [ "File:"; "Category:"; "Template:"; "Help:"; "Special:";
    "User:"; "Wikipedia:"; "Talk:"; "User_talk:"; "Wikipedia_talk:";
    "Template_talk:"; "Help_talk:"; "Category_talk:"; "Portal:";
    "Файл:"; "Категория:"; "Шаблон:"; "Справка:"; "Участник:";
    "Обсуждение:"; "Служебная:"; "Портал:" ]%string.

(** The body of the [if href.startswith('/wiki/')] branch. *)
Definition bare_wiki_path_ok (href : string) : bool :=
  if contains "#" href then false
  else if existsb (λ prefix, startswith ("/wiki/" +:+ prefix) href)
            excluded_prefixes
       then false
       else true.

(** The recursion of the classifier is on the last piece of a split, which
    is shorter than the string that was split. *)
Lemma contains_partition sep s :
  contains sep s = true → ∃ b a, partition sep s = Some (b, a).
Proof.
  induction s as [|c s IH]; simpl; unfold startswith.
  - destruct (strip_prefix sep EmptyString) eqn:E; [eauto | discriminate].
  - destruct (strip_prefix sep (String c s)) eqn:E; [eauto|].
    simpl. intros H. destruct (IH H) as (b & a & ->). eauto.
Qed.

Lemma split_nonempty sep s : split sep s ≠ [].
Proof. funelim (split sep s); discriminate. Qed.

Lemma last_piece_cons b l : l ≠ [] → last_piece (b :: l) = last_piece l.
Proof. destruct l; [congruence | reflexivity]. Qed.

Lemma split_last_le sep s :
  String.length (last_piece (split sep s)) ≤ String.length s.
Proof.
  funelim (split sep s).
  - reflexivity.
  - rewrite last_piece_cons by apply split_nonempty.
    pose proof (partition_length _ _ _ _ e) as L. simpl in L. lia.
  - reflexivity.
Qed.

Lemma split_last_shorter c sep' s :
  contains (String c sep') s = true →
  String.length (last_piece (split (String c sep') s)) < String.length s.
Proof.
  intros H. destruct (contains_partition _ _ H) as (b & a & E).
  rewrite split_equation_2.
  generalize (inspect (partition (String c sep') s)).
  intros [[[b' a']|] e]; simpl; [|congruence].
  rewrite last_piece_cons by apply split_nonempty.
  pose proof (split_last_le (String c sep') a') as L1.
  pose proof (partition_length _ _ _ _ e) as L2. simpl in L2. lia.
Qed.

(** [_is_valid_wikipedia_link(href, wiki_domain)].  The recursive call is on
    the last piece of [href.split('/wiki/')], which is strictly shorter than
    [href] whenever ['/wiki/' in href]. *)
Equations? _is_valid_wikipedia_link (href wiki_domain : string) : bool
  by wf (String.length href) lt :=
  _is_valid_wikipedia_link EmptyString _ := false;
  _is_valid_wikipedia_link href wiki_domain
    with startswith "/wiki/" href := {
    | true := bare_wiki_path_ok href;
    | false
        with inspect (contains wiki_domain href && contains "/wiki/" href) := {
        | exist _ true e :=
            _is_valid_wikipedia_link
              (last_piece (split "/wiki/" href)) wiki_domain;
        | exist _ false _ := false } }.
Proof.
  apply andb_prop in e as [_ e]. apply (split_last_shorter _ _ _ e).
Qed.


(** Rule 3 of the specification: the text after the article path prefix,
    classified by the checks of the bare-path case (no fragment marker, no
    denylisted namespace at its start). *)
Definition classify_remainder (remainder : string) : bool :=
  bare_wiki_path_ok ("/wiki/" +:+ remainder).


(** ** A model of [urllib.parse.urlparse]

    [urlparse] belongs to the Python standard library, not to the program.
    The model follows [urlsplit] and [urlparse] of CPython 3.11, in the
    revision of [urllib.parse] that validates bracketed hosts with
    [_check_bracketed_netloc]: leading C0 controls and spaces are stripped,
    tab, CR and LF are removed, then scheme, netloc, fragment, query and the
    [;params] of the last path segment are split off in this order.
    [ValueError] is raised on a netloc that fails one of the three checks
    of [urlsplit]: balanced brackets, an IP literal between them, and no
    delimiter brought up by NFKC normalisation. *)

Module Urllib.

Record ParseResult := {
  scheme : string;
  netloc : string;
  path : string;
  params : string;
  query : string;
  fragment : string;
}.

Definition in_range (lo hi : nat) (c : ascii) : bool :=
  let n := nat_of_ascii c in (lo <=? n)%nat && (n <=? hi)%nat.

(** [c.isascii() and c.isalpha()] *)
Definition is_ascii_alpha (c : ascii) : bool :=
  in_range 65 90 c || in_range 97 122 c.

(** [scheme_chars]: ASCII letters, digits and ["+-."] *)
Definition scheme_char (c : ascii) : bool :=
  is_ascii_alpha c || in_range 48 57 c || has_char c "+-.".

(** [_WHATWG_C0_CONTROL_OR_SPACE] *)
Definition c0_control_or_space (c : ascii) : bool := in_range 0 32 c.

(** [_UNSAFE_URL_BYTES_TO_REMOVE = ['\t', '\r', '\n']] *)
Definition unsafe_url_bytes : string :=
  String "009" (String "013" (String "010" EmptyString)).

Definition unsafe_url_byte (c : ascii) : bool := has_char c unsafe_url_bytes.

(** [uses_params]: the schemes whose last path segment may carry
    [;params]. *)
Definition uses_params : list string :=
  [ EmptyString; "ftp"; "hdl"; "prospero"; "http"; "imap"; "https"; "shttp"; "rtsp";
    "rtspu"; "sip"; "sips"; "mms"; "sftp"; "tel" ]%string.

(** The scheme step of [urlsplit]:
    [i = url.find(':')]; when [i > 0], [url[0]] is an ASCII letter and every
    character of [url[:i]] is a scheme character, the scheme is
    [url[:i].lower()] and the rest is [url[i+1:]]. *)
Definition split_scheme (url : string) : string * string :=
  match cut ":" url with
  | Some (String c0 pre, rest) =>
      if is_ascii_alpha c0 && all_chars scheme_char (String c0 pre)
      then (lower (String c0 pre), rest)
      else (EmptyString, url)
  | _ => (EmptyString, url)
  end.

(** [url[:delim], url[delim:]] for the first position [delim] of a
    character satisfying [f]. *)
Fixpoint break_at (f : ascii → bool) (s : string) : string * string :=
  match s with
  | EmptyString => (EmptyString, EmptyString)
  | String a s' =>
      if f a then (EmptyString, s)
      else let '(b, r) := break_at f s' in (String a b, r)
  end.

(** [_splitnetloc(url, 2)], applied to the text after the leading ['//']. *)
Definition _splitnetloc (rest : string) : string * string :=
  break_at (λ c, has_char c "/?#") rest.

Definition split_netloc (url : string) : string * string :=
  match strip_prefix "//" url with
  | Some rest => _splitnetloc rest
  | None => (EmptyString, url)
  end.

Definition invalid_ipv6 (netloc : string) : bool :=
  (has_char "[" netloc && negb (has_char "]" netloc))
  || (has_char "]" netloc && negb (has_char "[" netloc)).

(** [url.split(c, 1)] when [c in url]. *)
Definition split_once (c : ascii) (url : string) : string * string :=
  match cut c url with
  | Some (b, a) => (b, a)
  | None => (url, EmptyString)
  end.

(** *** The checks of the netloc

    [urlsplit] raises [ValueError] on three kinds of netloc: one with only
    one of ['['] and [']']; one with both whose bracketed host is not an
    IPv6 or IPvFuture literal ([_check_bracketed_netloc], which asks
    [ipaddress]); and one that is not ASCII and in which NFKC normalisation
    brings up one of ['/?#@:'] ([_checknetloc]).  The functions below say
    whether a text passes; the addresses themselves are not computed. *)

(** [c in '0123456789'] *)
Definition is_digit (c : ascii) : bool := in_range 48 57 c.

(** [c in IPv6Address._HEX_DIGITS] *)
Definition is_hex_digit (c : ascii) : bool :=
  in_range 48 57 c || in_range 65 70 c || in_range 97 102 c.

(** [int(s, 10)] on a string of decimal digits. *)
Definition decimal (s : string) : nat :=
  let fix go (acc : nat) (s : string) : nat :=
    match s with
    | EmptyString => acc
    | String c s' => go (10 * acc + (nat_of_ascii c - 48)) s'
    end in
  go 0 s.

(** [IPv4Address._parse_octet(octet_str)] returns: the octet is not empty,
    made of ASCII digits, at most three of them, without a leading zero
    unless it is ['0'], and not above 255. *)
Definition _parse_octet (octet_str : string) : bool :=
  match octet_str with
  | EmptyString => false
  | String c0 _ =>
      if negb (all_chars is_digit octet_str) then false
      else if (3 <? String.length octet_str)%nat then false
      else if negb (String.eqb octet_str "0") && Ascii.eqb c0 "0" then false
      else (decimal octet_str <=? 255)%nat
  end.

(** [IPv4Address(addr_str)] returns. *)
Definition IPv4Address (addr_str : string) : bool :=
  if has_char "/" addr_str then false
  else
    match addr_str with
    | EmptyString => false
    | _ =>
        let octets := split_char "." addr_str in
        (length octets =? 4)%nat && forallb _parse_octet octets
    end.

(** [IPv6Address._parse_hextet(hextet_str)] returns: hex digits only, at
    most four, and at least one ([int('', 16)] raises). *)
Definition _parse_hextet (hextet_str : string) : bool :=
  all_chars is_hex_digit hextet_str
  && (String.length hextet_str <=? 4)%nat
  && negb (String.eqb hextet_str EmptyString).

(** [IPv6Address._ip_int_from_string(ip_str)] returns.  An IPv4 suffix is
    replaced by the two hextets of its value; here by two hextets that
    parse, since only that is asked of them. *)
Definition _ip_int_from_string (ip_str : string) : bool :=
  match ip_str with
  | EmptyString => false
  | _ =>
      let parts := split_char ":" ip_str in
      if (length parts <? 3)%nat then false
      else
        let parts :=
          if has_char "." (List.last parts EmptyString)
          then if IPv4Address (List.last parts EmptyString)
               then Some (removelast parts ++ ["0"; "0"]%string)
               else None
          else Some parts in
        match parts with
        | None => false
        | Some parts =>
            if (9 <? length parts)%nat then false
            else
              let empty i := String.eqb (nth i parts "x"%string) EmptyString in
              match List.filter empty (seq 1 (length parts - 2)) with
              | _ :: _ :: _ => false
              | [skip_index] =>
                  let parts_hi := skip_index in
                  let parts_lo := (length parts - skip_index - 1)%nat in
                  let lead := empty 0%nat in
                  let trail := empty (length parts - 1)%nat in
                  let parts_hi := if lead then (parts_hi - 1)%nat else parts_hi in
                  let parts_lo := if trail then (parts_lo - 1)%nat else parts_lo in
                  if lead && negb (parts_hi =? 0)%nat then false
                  else if trail && negb (parts_lo =? 0)%nat then false
                  else if (8 <=? parts_hi + parts_lo)%nat then false
                  else
                    forallb _parse_hextet (firstn parts_hi parts)
                    && forallb _parse_hextet
                         (skipn (length parts - parts_lo) parts)
              | [] =>
                  (length parts =? 8)%nat
                  && negb (empty 0%nat)
                  && negb (empty (length parts - 1)%nat)
                  && forallb _parse_hextet parts
              end
        end
  end.

(** [IPv6Address(addr_str)] returns: no ['/'], a scope id after ['%'], if
    there is one, that is not empty and holds no ['%'], and an address
    before it. *)
Definition IPv6Address (addr_str : string) : bool :=
  if has_char "/" addr_str then false
  else
    match cut "%" addr_str with
    | Some (addr, scope_id) =>
        negb (String.eqb scope_id EmptyString)
        && negb (has_char "%" scope_id)
        && _ip_int_from_string addr
    | None => _ip_int_from_string addr_str
    end.

(** [_check_bracketed_host(hostname)]: after a ['v'] the host has to match
    [v[a-fA-F0-9]+\..+]; otherwise [ipaddress.ip_address] has to take it,
    and as an IPv6 address.  ([.] of the pattern does not match LF, which
    [urlsplit] has removed by then.) *)
Definition _check_bracketed_host (hostname : string) : outcome unit :=
  match strip_prefix "v" hostname with
  | Some after_v =>
      let '(digits, rest) := break_at (λ c, negb (is_hex_digit c)) after_v in
      match digits, strip_prefix "." rest with
      | String _ _, Some (String _ _ as tail) =>
          if has_char "010" tail then Raise ValueError else Return tt
      | _, _ => Raise ValueError
      end
  | None =>
      if IPv4Address hostname then Raise ValueError
      else if IPv6Address hostname then Return tt
      else Raise ValueError
  end.

(** [_check_bracketed_netloc(netloc)] *)
Definition _check_bracketed_netloc (netloc : string) : outcome unit :=
  let hostname_and_port :=
    match rcut "@" netloc with
    | Some (_, after) => after
    | None => netloc
    end in
  match cut "[" hostname_and_port with
  | Some (before_bracket, bracketed) =>
      match before_bracket with
      | String _ _ => Raise ValueError
      | EmptyString =>
          let '(hostname, port) :=
            match cut "]" bracketed with
            | Some (hostname, port) => (hostname, port)
            | None => (bracketed, EmptyString)
            end in
          match port with
          | String c _ =>
              if Ascii.eqb c ":" then _check_bracketed_host hostname
              else Raise ValueError
          | EmptyString => _check_bracketed_host hostname
          end
      end
  | None =>
      let hostname :=
        match cut ":" hostname_and_port with
        | Some (hostname, _) => hostname
        | None => hostname_and_port
        end in
      _check_bracketed_host hostname
  end.

(** The characters whose NFKC form holds one of ['/?#@:'], in UTF-8
    (Unicode 14.0, the data of [unicodedata] in CPython 3.11):
    U+2047 to U+2049, U+2100, U+2101, U+2105, U+2106, U+2A74, U+FE13,
    U+FE16, U+FE55, U+FE56, U+FE5F, U+FE6B, U+FF03, U+FF0F, U+FF1A, U+FF1F
    and U+FF20. *)
Definition nfkc_delimiter_chars : list string :=
  [ "⁇"; "⁈"; "⁉"; "℀"; "℁"; "℅"; "℆"; "⩴"; "︓"; "︖"; "﹕"; "﹖"; "﹟"; "﹫";
    "＃"; "／"; "："; "？"; "＠" ]%string.

(** [_checknetloc(netloc)], for a netloc without ['/'], as [urlsplit] cuts
    it.  With [n] the netloc without its ['@'], [':'], ['#'] and ['?'],
    [unicodedata.normalize('NFKC', n)] holds one of ['/?#@:'] exactly when
    [n] holds one of the characters above: NFKC replaces characters one by
    one before it reorders and composes marks, and no composition starts
    with one of the five. *)
Definition _checknetloc (netloc : string) : outcome unit :=
  if String.eqb netloc EmptyString || isascii netloc then Return tt
  else
    let n := remove_chars (λ c, has_char c "@:#?") netloc in
    if existsb (λ c, contains c n) nfkc_delimiter_chars then Raise ValueError
    else Return tt.

Definition urlsplit (url : string) : outcome ParseResult :=
  let url := lstrip c0_control_or_space url in
  let url := remove_chars unsafe_url_byte url in
  let '(scheme, url) := split_scheme url in
  let '(netloc, url) := split_netloc url in
  if invalid_ipv6 netloc then Raise ValueError
  else
    _ ← (if has_char "[" netloc && has_char "]" netloc
         then _check_bracketed_netloc netloc
         else Return tt);
    let '(url, fragment) := split_once "#" url in
    let '(url, query) := split_once "?" url in
    _ ← _checknetloc netloc;
    Return {| scheme := scheme; netloc := netloc; path := url;
              params := EmptyString; query := query; fragment := fragment |}.

(** [_splitparams(url)]: cut at the first [';'] after the last ['/'], or at
    the first [';'] when there is no ['/'].  [urlparse] calls it only when
    [';' in url]. *)
Definition _splitparams (url : string) : string * string :=
  match rcut "/" url with
  | Some (dir, seg) =>
      match cut ";" seg with
      | Some (b, a) => (dir +:+ "/" +:+ b, a)
      | None => (url, EmptyString)
      end
  | None => split_once ";" url
  end.

Definition urlparse (url : string) : outcome ParseResult :=
  r ← urlsplit url;
  let '(url, params) :=
    if bool_decide (scheme r ∈ uses_params) && has_char ";" (path r)
    then _splitparams (path r)
    else (path r, EmptyString) in
  Return {| scheme := scheme r; netloc := netloc r; path := url;
            params := params; query := query r; fragment := fragment r |}.

End Urllib.

Import Urllib.

(** ** The URL normaliser *)

Definition normalize_url (url : string) : outcome string :=
  parsed ← urlparse url;
  let normalized := scheme parsed +:+ "://" +:+ netloc parsed +:+ path parsed in
  Return (rstrip "/" normalized).



(** ** Absolute URLs, as the specification writes them

    [scheme://host path ?query #fragment]: the five parts of an absolute URL
    and the text they stand for.  [well_formed] says that each part stays
    within its own alphabet, so that the text reads back into the same
    parts. *)

Record absolute_url := {
  u_scheme : string;
  u_host : string;
  u_path : string;
  u_query : option string;
  u_fragment : option string;
}.

Definition suffix_part (c : ascii) (o : option string) : string :=
  match o with Some t => String c t | None => EmptyString end.

Definition render (u : absolute_url) : string :=
  u_scheme u +:+ "://" +:+ u_host u +:+ u_path u
  +:+ suffix_part "?" (u_query u) +:+ suffix_part "#" (u_fragment u).

Definition valid_scheme (s : string) : bool :=
  match s with
  | String c0 _ => is_ascii_alpha c0 && all_chars scheme_char s
  | EmptyString => false
  end.

Definition rooted (p : string) : bool :=
  match p with
  | EmptyString => true
  | String c _ => Ascii.eqb c "/"
  end.

Definition well_formed (u : absolute_url) : bool :=
  valid_scheme (u_scheme u)
  && none_of ("/?#[]" +:+ unsafe_url_bytes) (u_host u)
  && rooted (u_path u)
  && none_of ("?#;" +:+ unsafe_url_bytes) (u_path u)
  && none_of ("#" +:+ unsafe_url_bytes) (default EmptyString (u_query u))
  && none_of unsafe_url_bytes (default EmptyString (u_fragment u)).

(** The last segment of a path: the text after its last ['/']. *)
Definition last_segment (p : string) : string :=
  match rcut "/" p with
  | Some (_, seg) => seg
  | None => p
  end.

(** [delimited] asks less than [well_formed]: only that every part ends
    where the next one begins.  The host may hold brackets, and the path
    [';'] before its last segment. *)
Definition delimited (u : absolute_url) : bool :=
  valid_scheme (u_scheme u)
  && none_of ("/?#" +:+ unsafe_url_bytes) (u_host u)
  && rooted (u_path u)
  && none_of ("?#" +:+ unsafe_url_bytes) (u_path u)
  && negb (has_char ";" (last_segment (u_path u)))
  && none_of ("#" +:+ unsafe_url_bytes) (default EmptyString (u_query u))
  && none_of unsafe_url_bytes (default EmptyString (u_fragment u)).

(** [accepted_netloc netloc]: the three checks that [urlsplit] makes of a
    netloc pass. *)
Definition accepted_netloc (netloc : string) : bool :=
  match
    (if invalid_ipv6 netloc then Raise ValueError
     else
       _ ← (if has_char "[" netloc && has_char "]" netloc
            then _check_bracketed_netloc netloc
            else Return tt);
       _checknetloc netloc)
  with
  | Return _ => true
  | _ => false
  end.

(** The netloc that [urlsplit] cuts out of a string. *)
Definition netloc_of (url : string) : string :=
  let url := lstrip c0_control_or_space url in
  let url := remove_chars unsafe_url_byte url in
  let '(_, url) := split_scheme url in
  (split_netloc url).1.


(** ** The finder object and its environment *)

(** The fields of a [WikipediaPathFinder], together with the two parts of
    the outside world its methods touch: the clock read by [time.time()] and
    advanced by [time.sleep], and the log of the requests that reached the
    network (most recent last).  Times are rational numbers of seconds; the
    rounding of floating-point arithmetic is left out. *)
Record state := {
  rate_limit : Z;
  cache : gmap string string;
  semaphore : Z;
  request_times : list Q;
  clock : Q;
  network_log : list string;
}.

(** [WikipediaPathFinder(rate_limit)], created at time [now].
    [threading.Semaphore] refuses a negative initial value. *)
Definition __init__ (limit : Z) (now : Q) : outcome state :=
  if (limit <? 0)%Z then Raise ValueError
  else Return {| rate_limit := limit; cache := ∅; semaphore := limit;
                 request_times := []; clock := now; network_log := [] |}.

(** What [session.get(url, timeout=10)] followed by [raise_for_status()]
    amounts to: the time the exchange took, and the body of a successful
    response or [None] when a [requests.RequestException] was raised. *)
Record response := {
  elapsed : Q;
  body : option string;
}.

(** The environment of a search: the network, asked with the number of
    requests made before, and the link extraction of
    [extract_wikipedia_links], whose HTML traversal belongs to
    [BeautifulSoup]; the list gives the links of the returned set in the
    order in which the [for] loop of [find_path] meets them. *)
Record environment := {
  session_get : nat → string → response;
  extract_wikipedia_links : string → string → list string;
}.

Definition with_clock (t : Q) (s : state) : state :=
  {| rate_limit := rate_limit s; cache := cache s; semaphore := semaphore s;
     request_times := request_times s; clock := t;
     network_log := network_log s |}.

Definition with_request_times (l : list Q) (s : state) : state :=
  {| rate_limit := rate_limit s; cache := cache s; semaphore := semaphore s;
     request_times := l; clock := clock s; network_log := network_log s |}.

Definition with_semaphore (n : Z) (s : state) : state :=
  {| rate_limit := rate_limit s; cache := cache s; semaphore := n;
     request_times := request_times s; clock := clock s;
     network_log := network_log s |}.

Definition with_cache (m : gmap string string) (s : state) : state :=
  {| rate_limit := rate_limit s; cache := m; semaphore := semaphore s;
     request_times := request_times s; clock := clock s;
     network_log := network_log s |}.

Definition with_network_log (l : list string) (s : state) : state :=
  {| rate_limit := rate_limit s; cache := cache s; semaphore := semaphore s;
     request_times := request_times s; clock := clock s; network_log := l |}.

(** ** The rate limiter *)

(** [while self.request_times and current_time - self.request_times[0] > 1:
       self.request_times.popleft()] *)
Fixpoint prune (current_time : Q) (times : list Q) : list Q :=
  match times with
  | [] => []
  | t :: times' =>
      if Qlt_le_dec 1 (current_time - t) then prune current_time times'
      else times
  end.

(** [time.sleep(d)] *)
Definition sleep (d : Q) (s : state) : state := with_clock (clock s + d)%Q s.

Definition _rate_limit_request (s : state) : outcome state :=
  let current_time := clock s in
  let s := with_request_times (prune current_time (request_times s)) s in
  s ← (if (Z.of_nat (length (request_times s)) >=? rate_limit s)%Z then
         match request_times s with
         | [] => Raise IndexError
         | oldest :: _ =>
             let sleep_time := (1 - (current_time - oldest))%Q in
             if Qlt_le_dec 0 sleep_time then Return (sleep sleep_time s)
             else Return s
         end
       else Return s);
  Return (with_request_times (request_times s ++ [current_time]) s).

(** ** The cached fetcher *)

Definition get_page_content (env : environment) (url : string) (s : state)
  : outcome (option string * state) :=
  match cache s !! url with
  | Some text => Return (Some text, s)
  | None =>
      (* [with self.semaphore:] *)
      if (semaphore s <=? 0)%Z then Block
      else
        let s := with_semaphore (semaphore s - 1) s in
        s ← _rate_limit_request s;
        let r := session_get env (length (network_log s)) url in
        let s := with_network_log (network_log s ++ [url]) s in
        let s := with_clock (clock s + elapsed r)%Q s in
        match body r with
        | Some text =>
            let s := with_cache (<[url := text]> (cache s)) s in
            Return (Some text, with_semaphore (semaphore s + 1) s)
        | None => Return (None, with_semaphore (semaphore s + 1) s)
        end
  end.

(** ** Breadth-first search *)

(** A queue entry [(current_url, path)]. *)
Definition node : Type := string * list string.

(** The [for link in links] loop.  The result carries the path to return,
    if the target was met, and in either case the visited set and the queue
    as the loop left them. *)
Fixpoint for_links (target_url : string) (max_depth : Z) (path : list string)
    (links : list string) (visited : gset string) (queue : list node)
  : outcome (option (list string) * gset string * list node) :=
  match links with
  | [] => Return (None, visited, queue)
  | link :: links' =>
      normalized_link ← normalize_url link;
      if String.eqb normalized_link target_url
      then Return (Some (path ++ [normalized_link]), visited, queue)
      else if bool_decide (normalized_link ∉ visited)
              && (Z.of_nat (length path) <? max_depth)%Z
      then for_links target_url max_depth path links'
             ({[normalized_link]} ∪ visited)
             (queue ++ [(normalized_link, path ++ [normalized_link])])
      else for_links target_url max_depth path links' visited queue
  end.

(** The variables of the [while queue] loop. *)
Record search := {
  visited : gset string;
  queue : list node;
  finder : state;
}.

(** What a call of [find_path] comes to: the returned path or [None], with
    the state the finder is left in; an exception; or no return at all. *)
Definition result : Type := outcome (option (list string) * state).

(** [not content] *)
Definition falsy (content : option string) : bool :=
  match content with
  | None | Some EmptyString => true
  | Some _ => false
  end.

(** One turn of the [while queue] loop, entered with a non-empty queue
    ([None] when the queue is empty and the loop is left).  The turn yields
    the path to return, if the target was met, and the loop variables as the
    turn left them; it raises or blocks when a call inside it does. *)
Definition turn (env : environment) (target_url : string) (max_depth : Z)
    (b : search) : option (outcome (option (list string) * search)) :=
  match queue b with
  | [] => None
  | (current_url, path) :: queue' =>
      Some
        (if (Z.of_nat (length path) >? max_depth)%Z
         then Return (None, {| visited := visited b; queue := queue';
                               finder := finder b |})
         else
           '(content, s) ← get_page_content env current_url (finder b);
           if falsy content
           then Return (None, {| visited := visited b; queue := queue';
                                 finder := s |})
           else
             let links := extract_wikipedia_links env
                            (default EmptyString content) current_url in
             '(found, visited', queue'') ←
               for_links target_url max_depth path links (visited b) queue';
             Return (found, {| visited := visited'; queue := queue'';
                               finder := s |}))
  end.

(** The [while] loop, run for at most [fuel] turns; [None] when the fuel
    does not suffice. *)
Fixpoint bfs_loop (env : environment) (target_url : string) (max_depth : Z)
    (fuel : nat) (b : search) : option result :=
  match fuel with
  | O => None
  | S fuel' =>
      match turn env target_url max_depth b with
      | None => Some (Return (None, finder b))
      | Some (Return (Some found, b')) => Some (Return (Some found, finder b'))
      | Some (Return (None, b')) =>
          bfs_loop env target_url max_depth fuel' b'
      | Some (Raise e) => Some (Raise e)
      | Some Block => Some Block
      end
  end.

(** The loop variables before the first turn. *)
Definition initial (start_url : string) (s : state) : search :=
  {| visited := {[start_url]}; queue := [(start_url, [start_url])];
     finder := s |}.

Definition find_path (env : environment) (fuel : nat)
    (start_url target_url : string) (max_depth : Z) (s : state)
  : option result :=
  match normalize_url start_url with
  | Return start_url =>
      match normalize_url target_url with
      | Return target_url =>
          if String.eqb start_url target_url
          then Some (Return (Some [start_url], s))
          else bfs_loop env target_url max_depth fuel (initial start_url s)
      | Raise e => Some (Raise e)
      | Block => Some Block
      end
  | Raise e => Some (Raise e)
  | Block => Some Block
  end.


(** ** The search in both directions *)

(** [find_bidirectional_path]: the search from [url1] to [url2], then the
    search back on the finder as the first one left it.  An exception in
    the first search leaves the second unrun.  Each search has [fuel]
    turns.  The two lines of progress it prints are left out. *)
Definition find_bidirectional_path (env : environment) (fuel : nat)
    (url1 url2 : string) (max_depth : Z) (s : state)
  : option (outcome (option (list string) * option (list string) * state)) :=
  match find_path env fuel url1 url2 max_depth s with
  | Some (Return (path1to2, s1)) =>
      match find_path env fuel url2 url1 max_depth s1 with
      | Some (Return (path2to1, s2)) =>
          Some (Return (path1to2, path2to1, s2))
      | Some (Raise e) => Some (Raise e)
      | Some Block => Some Block
      | None => None
      end
  | Some (Raise e) => Some (Raise e)
  | Some Block => Some Block
  | None => None
  end.

(** ** Printing a path *)

(** [sep.join(l)] *)
Fixpoint join (sep : string) (l : list string) : string :=
  match l with
  | [] => EmptyString
  | x :: l' =>
      match l' with
      | [] => x
      | _ :: _ => x +:+ sep +:+ join sep l'
      end
  end.

(** The list [formatted_links] built by the [for i, url in enumerate(path)]
    loop of [format_path], from its turn for index [i] on; [n] is
    [len(path)] of the whole path. *)
Fixpoint formatted_links (n i : nat) (path : list string) : list string :=
  match path with
  | [] => []
  | url :: rest =>
      (if (i =? 0) || (i =? n - 1) then url else "[" +:+ url +:+ "]")
      :: formatted_links n (S i) rest
  end.

(** [format_path(path)] *)
Definition format_path (path : list string) : option string :=
  match path with
  | [] => None
  | [url] => Some url
  | _ => Some (join " => " (formatted_links (length path) 0 path))
  end.


(** ** Predicates used in the statements *)

(** A window entry is fresh when it is at most one second old. *)
Definition fresh (now t : Q) : bool := Qle_bool (now - t) 1.

(** A finder on which a fetch can go through: a free slot in the semaphore
    and a positive limit, as [WikipediaPathFinder(n)] gives for [n >= 1]. *)
Definition ready (s : state) : Prop :=
  (0 < semaphore s)%Z ∧ (1 ≤ rate_limit s)%Z.

(** [fetched env s s']: [s'] is reached from [s] by returning calls of
    [get_page_content], for any URLs. *)
Inductive fetched (env : environment) (s : state) : state → Prop :=
| fetched_refl : fetched env s s
| fetched_step s1 url content s2 :
    fetched env s s1 →
    get_page_content env url s1 = Return (content, s2) →
    fetched env s s2.

(** A canonical URL is a value of [normalize_url]. *)
Definition canonical (c : string) : Prop := ∃ url, normalize_url url = Return c.

(** [visits env target_url max_depth b b']: the [while] loop, started with
    the variables [b], has the variables [b'] at the end of one of its
    turns, the returning turn included. *)
Inductive visits (env : environment) (target_url : string) (max_depth : Z)
    (b : search) : search → Prop :=
| visits_start : visits env target_url max_depth b b
| visits_turn found b' b'' :
    visits env target_url max_depth b b' →
    turn env target_url max_depth b' = Some (Return (found, b'')) →
    visits env target_url max_depth b b''.

(** [page_html env s0 u html]: [html] is a body the finder can come to hold
    for [u]: it was in the cache [s0] starts with, or it is a body the
    network gives for [u]. *)
Definition page_html (env : environment) (s0 : state) (u html : string)
  : Prop :=
  cache s0 !! u = Some html ∨ ∃ n, body (session_get env n u) = Some html.

(** [linked env s0 u v]: a non-empty body of [u] has a link that
    normalises to [v]. *)
Definition linked (env : environment) (s0 : state) (u v : string) : Prop :=
  ∃ html link,
    page_html env s0 u html ∧ html ≠ EmptyString ∧
    link ∈ extract_wikipedia_links env html u ∧
    normalize_url link = Return v.

(** Every element of the path is linked to the next. *)
Fixpoint chain (env : environment) (s0 : state) (p : list string) : Prop :=
  match p with
  | x :: (y :: _) as p' => linked env s0 x y ∧ chain env s0 p'
  | _ => True
  end.

(** What the [for] loop has done when it returns: it has appended, in
    order, the normalised links that were new and not the target, each with
    the path extended by it, and marked them visited; a path it returns ends
    with a link normalised to the target. *)
Definition links_post (target_url : string) (max_depth : Z)
    (path links : list string) (v : gset string) (q : list node)
    (found : option (list string)) (v' : gset string) (q' : list node)
  : Prop :=
  ∃ added : list string,
    q' = q ++ map (λ c, (c, path ++ [c])) added ∧
    (∀ x, x ∈ v' ↔ x ∈ added ∨ x ∈ v) ∧
    NoDup added ∧
    (∀ c, c ∈ added →
       (c ∉ v) ∧ c ≠ target_url ∧ (Z.of_nat (length path) < max_depth)%Z ∧
       ∃ link, link ∈ links ∧ normalize_url link = Return c) ∧
    (∀ p, found = Some p →
       p = path ++ [target_url] ∧
       ∃ link, link ∈ links ∧ normalize_url link = Return target_url).

(** ** A small site, for concrete runs

    Four pages: A links to B and to C (written with a trailing slash),
    B links back to A and to D, C cannot be fetched. *)

Definition page_A : string := "https://en.example.org/wiki/A".
Definition page_B : string := "https://en.example.org/wiki/B".
Definition page_C : string := "https://en.example.org/wiki/C".
Definition page_D : string := "https://en.example.org/wiki/D".

Definition example_site : environment := {|
  session_get := λ _ url,
    if String.eqb url page_A
    then {| elapsed := 1 # 10; body := Some "<html>A</html>"%string |}
    else if String.eqb url page_B
    then {| elapsed := 1 # 10; body := Some "<html>B</html>"%string |}
    else {| elapsed := 1 # 10; body := None |};
  extract_wikipedia_links := λ html _,
    if String.eqb html "<html>A</html>"
    then [page_B; (page_C +:+ "/")%string]
    else if String.eqb html "<html>B</html>"
    then [page_A; page_D]
    else [];
|}.

(** The finder [WikipediaPathFinder(10)], created at time 0. *)
Definition new_finder : state :=
  {| rate_limit := 10; cache := ∅; semaphore := 10; request_times := [];
     clock := 0; network_log := [] |}.

(** A finder with limit 1 that made a request half a second ago. *)
Definition busy_finder : state :=
  {| rate_limit := 1; cache := ∅; semaphore := 1; request_times := [0%Q];
     clock := 1 # 2; network_log := [page_A] |}.

(** An absolute URL with all five parts. *)
Definition example_url : absolute_url :=
  {| u_scheme := "HTTPS"; u_host := "en.example.org"; u_path := "/wiki/Foo/";
     u_query := Some "action=raw"%string; u_fragment := Some "History"%string |}.

(** The same article, written in another way. *)
Definition example_url_again : absolute_url :=
  {| u_scheme := "https"; u_host := "en.example.org";
     u_path := "/wiki/Foo///"; u_query := None;
     u_fragment := Some "See_also"%string |}.

(** A finder with limit 2 and two requests in the last second. *)
Definition paced_finder : state :=
  {| rate_limit := 2; cache := ∅; semaphore := 2;
     request_times := [1 # 4; 1 # 2]; clock := 1; network_log := [] |}.



(** * Facts about the model *)

(** ** Facts about the string primitives *)

Section StringFacts.

Implicit Types (s t u b r bad : string) (c a : ascii) (f g : ascii → bool).

Lemma append_nil_r s : s +:+ EmptyString = s.
Proof. induction s; simpl; congruence. Qed.

Lemma append_assoc s t u : (s +:+ t) +:+ u = s +:+ (t +:+ u).
Proof. induction s; simpl; congruence. Qed.

Lemma all_chars_app f s t :
  all_chars f (s +:+ t) = all_chars f s && all_chars f t.
Proof.
  induction s as [|a s IH]; simpl; [reflexivity|].
  rewrite IH, andb_assoc. reflexivity.
Qed.

Lemma all_chars_impl f g s :
  (∀ c, f c = true → g c = true) → all_chars f s = true → all_chars g s = true.
Proof.
  intros Hfg. induction s as [|a s IH]; simpl; [reflexivity|].
  intros [Ha Hs]%andb_prop. rewrite (Hfg _ Ha), (IH Hs). reflexivity.
Qed.

Lemma has_char_app c s t : has_char c (s +:+ t) = has_char c s || has_char c t.
Proof.
  induction s as [|a s IH]; simpl; [reflexivity|].
  rewrite IH, orb_assoc. reflexivity.
Qed.

Lemma none_of_app bad s t : none_of bad (s +:+ t) = none_of bad s && none_of bad t.
Proof. apply all_chars_app. Qed.

Lemma none_of_has_char bad s c :
  none_of bad s = true → has_char c bad = true → has_char c s = false.
Proof.
  intros Hs Hc. induction s as [|a s IH]; simpl in *; [reflexivity|].
  apply andb_prop in Hs as [Ha Hs]. rewrite (IH Hs), orb_false_r.
  destruct (Ascii.eqb_spec a c) as [->|]; [|reflexivity].
  rewrite Hc in Ha. discriminate.
Qed.

Lemma has_char_none_of c s :
  has_char c s = false → none_of (String c EmptyString) s = true.
Proof.
  induction s as [|a s IH]; simpl; [reflexivity|].
  intros [Ha Hs]%orb_false_elim. unfold none_of in *. cbn [all_chars].
  rewrite (IH Hs). cbn [has_char].
  rewrite orb_false_r, Ascii.eqb_sym, Ha. reflexivity.
Qed.

Lemma none_of_union bad bad' s :
  none_of bad s = true → none_of bad' s = true → none_of (bad +:+ bad') s = true.
Proof.
  unfold none_of. induction s as [|a s IH]; simpl; [reflexivity|].
  intros [Ha Hs]%andb_prop [Ha' Hs']%andb_prop.
  rewrite (IH Hs Hs'), has_char_app.
  apply negb_true_iff in Ha, Ha'. rewrite Ha, Ha'. reflexivity.
Qed.

Lemma none_of_sub bad bad' s :
  (∀ c, has_char c bad' = true → has_char c bad = true) →
  none_of bad s = true → none_of bad' s = true.
Proof.
  intros Hsub. apply all_chars_impl. intros c Hc.
  apply negb_true_iff in Hc. apply negb_true_iff.
  destruct (has_char c bad') eqn:E; [|reflexivity].
  rewrite (Hsub _ E) in Hc. discriminate.
Qed.

Lemma remove_chars_none_of bad s :
  none_of bad (remove_chars (λ c, has_char c bad) s) = true.
Proof.
  unfold none_of. induction s as [|a s IH]; simpl; [reflexivity|].
  destruct (has_char a bad) eqn:E; simpl; [exact IH|].
  rewrite E, IH. reflexivity.
Qed.

Lemma remove_chars_id bad s :
  none_of bad s = true → remove_chars (λ c, has_char c bad) s = s.
Proof.
  unfold none_of. induction s as [|a s IH]; simpl; [reflexivity|].
  intros [Ha Hs]%andb_prop. apply negb_true_iff in Ha.
  rewrite Ha, (IH Hs). reflexivity.
Qed.

(** [cut]: the first occurrence. *)
Lemma cut_spec c s :
  match cut c s with
  | Some (b, r) => s = b +:+ String c r ∧ has_char c b = false
  | None => has_char c s = false
  end.
Proof.
  induction s as [|a s IH]; simpl; [reflexivity|].
  destruct (Ascii.eqb_spec a c) as [->|Hne]; simpl; [split; reflexivity|].
  destruct (cut c s) as [[b r]|]; [|exact IH].
  destruct IH as [-> Hb]. simpl.
  split; [reflexivity|]. rewrite Hb, orb_false_r.
  apply Ascii.eqb_neq. exact Hne.
Qed.

Lemma cut_app c b r : has_char c b = false → cut c (b +:+ String c r) = Some (b, r).
Proof.
  induction b as [|a b IH]; simpl.
  - rewrite Ascii.eqb_refl. reflexivity.
  - intros [Ha Hb]%orb_false_elim. rewrite Ha, (IH Hb). reflexivity.
Qed.

Lemma cut_none c s : has_char c s = false → cut c s = None.
Proof.
  intros H. pose proof (cut_spec c s) as C.
  destruct (cut c s) as [[b r]|]; [|reflexivity].
  destruct C as [-> _]. rewrite has_char_app in H. simpl in H.
  rewrite Ascii.eqb_refl, orb_true_r in H. discriminate.
Qed.

(** [rcut]: the last occurrence. *)
Lemma rcut_spec c s :
  match rcut c s with
  | Some (b, r) => s = b +:+ String c r ∧ has_char c r = false
  | None => has_char c s = false
  end.
Proof.
  induction s as [|a s IH]; simpl; [reflexivity|].
  destruct (rcut c s) as [[b r]|].
  - destruct IH as [-> Hr]. split; [reflexivity | exact Hr].
  - destruct (Ascii.eqb_spec a c) as [->|Hne]; simpl.
    + split; [reflexivity | exact IH].
    + exact IH.
Qed.

(** [break_at]: the longest prefix without a character satisfying [f]. *)
Lemma break_at_spec f s :
  let '(b, r) := break_at f s in
  s = b +:+ r ∧ all_chars (λ c, negb (f c)) b = true ∧
  match r with String a _ => f a = true | EmptyString => True end.
Proof.
  induction s as [|a s IH]; simpl; [auto|].
  destruct (f a) eqn:E; simpl; [auto|].
  destruct (break_at f s) as [b r]. destruct IH as (-> & Hb & Hr).
  simpl. rewrite E, Hb. auto.
Qed.

Lemma break_at_app f b r :
  all_chars (λ c, negb (f c)) b = true →
  match r with String a _ => f a = true | EmptyString => True end →
  break_at f (b +:+ r) = (b, r).
Proof.
  intros Hb Hr. induction b as [|a b IH]; simpl in *.
  - destruct r as [|a r]; [reflexivity|]. simpl. rewrite Hr. reflexivity.
  - apply andb_prop in Hb as [Ha Hb]. apply negb_true_iff in Ha.
    rewrite Ha, (IH Hb). reflexivity.
Qed.

(** [rstrip] *)
Lemma rstrip_app c s t :
  rstrip c (s +:+ t) =
  match rstrip c t with
  | EmptyString => rstrip c s
  | r => s +:+ r
  end.
Proof.
  induction s as [|a s IH]; simpl.
  - destruct (rstrip c t); reflexivity.
  - rewrite IH. destruct (rstrip c t) as [|a' r]; [reflexivity|].
    destruct s; reflexivity.
Qed.

Lemma rstrip_idem c s : rstrip c (rstrip c s) = rstrip c s.
Proof.
  induction s as [|a s IH]; simpl; [reflexivity|].
  destruct (rstrip c s) as [|a' r] eqn:E.
  - destruct (Ascii.eqb a c) eqn:Ea; simpl; [reflexivity|].
    rewrite Ea. reflexivity.
  - change (rstrip c (String a (String a' r)))
      with (match rstrip c (String a' r) with
            | EmptyString => if Ascii.eqb a c then EmptyString
                             else String a EmptyString
            | r0 => String a r0 end).
    rewrite IH. reflexivity.
Qed.

Lemma rstrip_none_of bad c s : none_of bad s = true → none_of bad (rstrip c s) = true.
Proof.
  unfold none_of. induction s as [|a s IH]; simpl; [reflexivity|].
  intros [Ha Hs]%andb_prop. specialize (IH Hs).
  destruct (rstrip c s) as [|a' r].
  - destruct (Ascii.eqb a c); simpl; [reflexivity|]. rewrite Ha. reflexivity.
  - simpl in *. rewrite Ha, IH. reflexivity.
Qed.

(** The result of [rstrip] does not end with the stripped character. *)
Lemma rstrip_last_char c s : last_char (rstrip c s) ≠ Some c.
Proof.
  induction s as [|a s IH]; simpl; [discriminate|].
  destruct (rstrip c s) as [|a' r].
  - destruct (Ascii.eqb_spec a c); simpl; congruence.
  - exact IH.
Qed.

End StringFacts.

(** ** Facts about the link classifier *)

Lemma partition_none_contains sep s :
  partition sep s = None → contains sep s = false.
Proof.
  induction s as [|c s IH]; simpl; unfold startswith.
  - destruct (strip_prefix sep EmptyString); [discriminate | reflexivity].
  - destruct (strip_prefix sep (String c s)); [discriminate|].
    destruct (partition sep s) as [[b a]|]; [discriminate|].
    intros _. simpl. apply IH. reflexivity.
Qed.

(** The last piece of a split never contains the separator. *)
Lemma split_last_no_sep sep s :
  sep ≠ EmptyString → contains sep (last_piece (split sep s)) = false.
Proof.
  funelim (split sep s); intros Hne.
  - congruence.
  - rewrite last_piece_cons by apply split_nonempty. apply H. exact Hne.
  - apply partition_none_contains. exact e.
Qed.

Lemma startswith_contains p s : startswith p s = true → contains p s = true.
Proof. intros H. destruct s; simpl; rewrite H; reflexivity. Qed.

(** A string without ['/wiki/'] is rejected: neither branch applies. *)
Lemma no_wiki_rejected href wiki_domain :
  contains "/wiki/" href = false →
  _is_valid_wikipedia_link href wiki_domain = false.
Proof.
  intros H. destruct href as [|a s].
  - apply _is_valid_wikipedia_link_equation_1.
  - rewrite _is_valid_wikipedia_link_equation_2.
    destruct (startswith "/wiki/" (String a s)) eqn:E.
    + apply startswith_contains in E. congruence.
    + unfold _is_valid_wikipedia_link_unfold_clause_2.
      generalize (inspect (contains wiki_domain (String a s) &&
                           contains "/wiki/" (String a s))).
      intros [[|] e]; [|reflexivity].
      exfalso. rewrite H, andb_false_r in e. discriminate.
Qed.

(** The full-URL branch (lines 131-135) never accepts: it recurses on the
    text after the last ['/wiki/'], which no longer carries the prefix the
    first branch asks for. *)
Lemma full_url_branch_rejects href wiki_domain :
  startswith "/wiki/" href = false →
  _is_valid_wikipedia_link href wiki_domain = false.
Proof.
  intros H. destruct href as [|a s].
  - apply _is_valid_wikipedia_link_equation_1.
  - rewrite _is_valid_wikipedia_link_equation_2, H.
    unfold _is_valid_wikipedia_link_unfold_clause_2.
    generalize (inspect (contains wiki_domain (String a s) &&
                         contains "/wiki/" (String a s))).
    intros [[|] e]; [|reflexivity]. simpl.
    apply no_wiki_rejected, split_last_no_sep. discriminate.
Qed.

(** The classifier is exactly its first branch. *)
Lemma _is_valid_wikipedia_link_spec href wiki_domain :
  _is_valid_wikipedia_link href wiki_domain =
  startswith "/wiki/" href && bare_wiki_path_ok href.
Proof.
  destruct (startswith "/wiki/" href) eqn:E.
  - destruct href as [|a s]; [discriminate|].
    rewrite _is_valid_wikipedia_link_equation_2, E. reflexivity.
  - apply full_url_branch_rejects. exact E.
Qed.


(** ** Facts about [urlparse] and [normalize_url] *)

(** A statement about one character, settled on its 256 values. *)
Ltac ascii_cases c :=
  destruct c as [[|] [|] [|] [|] [|] [|] [|] [|]]; vm_compute; congruence.

Lemma alpha_not_c0 c : is_ascii_alpha c = true → c0_control_or_space c = false.
Proof. ascii_cases c. Qed.

Lemma alpha_scheme_char c : is_ascii_alpha c = true → scheme_char c = true.
Proof. ascii_cases c. Qed.

Lemma scheme_char_plain c :
  scheme_char c = true → negb (has_char c (":/?#[];" +:+ unsafe_url_bytes)) = true.
Proof. ascii_cases c. Qed.

Lemma scheme_char_lower c : scheme_char c = true → scheme_char (lower_char c) = true.
Proof. ascii_cases c. Qed.

Lemma alpha_lower c : is_ascii_alpha c = true → is_ascii_alpha (lower_char c) = true.
Proof. ascii_cases c. Qed.

Lemma lower_char_idem c : lower_char (lower_char c) = lower_char c.
Proof. ascii_cases c. Qed.

Lemma lower_idem s : lower (lower s) = lower s.
Proof. induction s; simpl; rewrite ?lower_char_idem; congruence. Qed.

Lemma all_scheme_chars_lower s :
  all_chars scheme_char s = true → all_chars scheme_char (lower s) = true.
Proof.
  induction s as [|a s IH]; cbn [all_chars lower]; [reflexivity|].
  intros [Ha Hs]%andb_prop. rewrite (scheme_char_lower _ Ha), (IH Hs). reflexivity.
Qed.

Lemma valid_scheme_lower s : valid_scheme s = true → valid_scheme (lower s) = true.
Proof.
  destruct s as [|c0 s]; [discriminate|].
  intros [H0 H]%andb_prop. apply all_scheme_chars_lower in H.
  cbn [lower valid_scheme] in *. rewrite (alpha_lower _ H0), H. reflexivity.
Qed.

Lemma valid_scheme_none_of s :
  valid_scheme s = true → none_of (":/?#[];" +:+ unsafe_url_bytes) s = true.
Proof.
  destruct s as [|c0 s]; [discriminate|]. unfold valid_scheme.
  intros [_ H]%andb_prop. revert H. apply all_chars_impl, scheme_char_plain.
Qed.

Lemma split_scheme_app s rest :
  valid_scheme s = true →
  split_scheme (s +:+ String ":" rest) = (lower s, rest).
Proof.
  intros V. unfold split_scheme.
  rewrite cut_app.
  2:{ eapply none_of_has_char; [apply valid_scheme_none_of, V|reflexivity]. }
  destruct s as [|c0 s]; [discriminate|]. unfold valid_scheme in V.
  rewrite V. reflexivity.
Qed.

Lemma sub_chars (bad bad' : string) s :
  forallb (λ c, has_char c bad) (list_ascii_of_string bad') = true →
  none_of bad s = true → none_of bad' s = true.
Proof.
  intros H. apply none_of_sub. intros c Hc.
  induction bad' as [|a bad' IH]; simpl in *; [discriminate|].
  apply andb_prop in H as [Ha H].
  apply orb_prop in Hc as [Hc|Hc]; [|auto].
  apply Ascii.eqb_eq in Hc as <-. exact Ha.
Qed.

Lemma none_of_app_intro bad s t :
  none_of bad s = true → none_of bad t = true → none_of bad (s +:+ t) = true.
Proof. intros Hs Ht. rewrite none_of_app, Hs, Ht. reflexivity. Qed.

Lemma suffix_part_starts c o :
  match suffix_part c o with String a _ => a = c | EmptyString => True end.
Proof. destruct o; simpl; auto. Qed.

Lemma _check_bracketed_host_outcomes h :
  _check_bracketed_host h = Return tt ∨ _check_bracketed_host h = Raise ValueError.
Proof.
  unfold _check_bracketed_host. destruct (strip_prefix "v" h) as [after_v|].
  - destruct (break_at _ after_v) as [digits rest]. destruct digits; [auto|].
    destruct (strip_prefix "." rest) as [[|c tail]|]; auto.
    destruct (has_char _ _); auto.
  - destruct (IPv4Address h); [auto|]. destruct (IPv6Address h); auto.
Qed.

Lemma _check_bracketed_netloc_outcomes n :
  _check_bracketed_netloc n = Return tt
  ∨ _check_bracketed_netloc n = Raise ValueError.
Proof.
  unfold _check_bracketed_netloc.
  destruct (cut "[" _) as [[[|c before] bracketed]|]; auto.
  - destruct (cut "]" bracketed) as [[hostname port]|].
    + destruct port as [|c port]; [apply _check_bracketed_host_outcomes|].
      destruct (Ascii.eqb c ":"); [apply _check_bracketed_host_outcomes | auto].
    + apply _check_bracketed_host_outcomes.
  - apply _check_bracketed_host_outcomes.
Qed.

Lemma _checknetloc_outcomes n :
  _checknetloc n = Return tt ∨ _checknetloc n = Raise ValueError.
Proof.
  unfold _checknetloc. destruct (String.eqb n EmptyString || isascii n); [auto|].
  destruct (existsb _ _); auto.
Qed.

(** [urlsplit] returns when the netloc it has cut is accepted, and raises
    [ValueError] when it is not. *)
Lemma urlsplit_spec url :
  urlsplit url =
  let url := lstrip c0_control_or_space url in
  let url := remove_chars unsafe_url_byte url in
  let '(scheme, url) := split_scheme url in
  let '(netloc, url) := split_netloc url in
  if accepted_netloc netloc
  then
    let '(url, fragment) := split_once "#" url in
    let '(url, query) := split_once "?" url in
    Return {| scheme := scheme; netloc := netloc; path := url;
              params := EmptyString; query := query; fragment := fragment |}
  else Raise ValueError.
Proof.
  unfold urlsplit, accepted_netloc. cbv zeta.
  destruct (split_scheme _) as [sch r1]. destruct (split_netloc r1) as [n r2].
  destruct (invalid_ipv6 n); [reflexivity|].
  assert (B : (if has_char "[" n && has_char "]" n
               then _check_bracketed_netloc n else Return tt) = Return tt
              ∨ (if has_char "[" n && has_char "]" n
               then _check_bracketed_netloc n else Return tt) = Raise ValueError).
  { destruct (has_char "[" n && has_char "]" n); [|auto].
    apply _check_bracketed_netloc_outcomes. }
  destruct B as [-> | ->]; cbn [mbind outcome_bind]; [|reflexivity].
  destruct (split_once "#" r2) as [r3 f]. destruct (split_once "?" r3) as [r4 q].
  destruct (_checknetloc_outcomes n) as [-> | ->]; reflexivity.
Qed.

Lemma accepted_netloc_empty : accepted_netloc EmptyString = true.
Proof. reflexivity. Qed.

Lemma urlsplit_after_scheme S rest :
  valid_scheme S = true → none_of unsafe_url_bytes rest = true →
  urlsplit (S +:+ String ":" rest) =
  let '(netloc, url) := split_netloc rest in
  if accepted_netloc netloc
  then
    let '(url, fragment) := split_once "#" url in
    let '(url, query) := split_once "?" url in
    Return {| scheme := lower S; netloc := netloc; path := url;
              params := EmptyString; query := query; fragment := fragment |}
  else Raise ValueError.
Proof.
  intros VS Hrest. rewrite urlsplit_spec. cbv zeta.
  assert (L : lstrip c0_control_or_space (S +:+ String ":" rest)
              = S +:+ String ":" rest).
  { destruct S as [|c0 S]; [discriminate|]. simpl.
    apply andb_prop in VS as [V0 _]. rewrite (alpha_not_c0 _ V0). reflexivity. }
  rewrite L. unfold unsafe_url_byte. rewrite remove_chars_id.
  - rewrite (split_scheme_app _ _ VS). reflexivity.
  - apply none_of_app_intro.
    + generalize (valid_scheme_none_of _ VS). apply sub_chars. reflexivity.
    + apply (none_of_app_intro _ ":"); [reflexivity | exact Hrest].
Qed.

Lemma _splitparams_last_segment p :
  has_char ";" (last_segment p) = false → _splitparams p = (p, EmptyString).
Proof.
  unfold _splitparams, last_segment, split_once.
  destruct (rcut "/" p) as [[dir seg]|]; intros H; rewrite (cut_none _ _ H);
    reflexivity.
Qed.

Lemma urlparse_render u :
  delimited u = true →
  urlparse (render u) =
  if accepted_netloc (u_host u)
  then Return {| scheme := lower (u_scheme u); netloc := u_host u;
                 path := u_path u; params := EmptyString;
                 query := default EmptyString (u_query u);
                 fragment := default EmptyString (u_fragment u) |}
  else Raise ValueError.
Proof.
  destruct u as [S H P Q F]. unfold delimited, render.
  cbn [u_scheme u_host u_path u_query u_fragment].
  rewrite !andb_true_iff.
  intros ((((((VS & VH) & VR) & VP) & HP3) & VQ) & VF).
  apply negb_true_iff in HP3.
  assert (HP : has_char "#" P = false ∧ has_char "?" P = false).
  { split; eapply none_of_has_char; eauto. }
  destruct HP as (HP1 & HP2).
  assert (HQ : has_char "#" (suffix_part "?" Q) = false).
  { destruct Q as [q|]; [|reflexivity]. simpl.
    eapply none_of_has_char; eauto. }
  unfold urlparse.
  change ("://" +:+ H +:+ P +:+ suffix_part "?" Q +:+ suffix_part "#" F)
    with (String ":" ("//" +:+ H +:+ P +:+ suffix_part "?" Q +:+ suffix_part "#" F)).
  rewrite (urlsplit_after_scheme _ _ VS).
  2:{ apply (none_of_app_intro _ "//"); [reflexivity|].
      repeat apply none_of_app_intro.
      - revert VH. apply sub_chars. reflexivity.
      - revert VP. apply sub_chars. reflexivity.
      - destruct Q as [q|]; [|reflexivity].
        apply (none_of_app_intro _ "?"); [reflexivity|].
        revert VQ. apply sub_chars. reflexivity.
      - destruct F as [f|]; [|reflexivity].
        apply (none_of_app_intro _ "#"); [reflexivity|exact VF]. }
  unfold split_netloc. change (strip_prefix "//" ("//" +:+ ?x)) with (Some x).
  cbv beta iota. unfold _splitnetloc.
  rewrite break_at_app.
  2:{ revert VH. apply sub_chars. reflexivity. }
  2:{ destruct P as [|p P]; [destruct Q; [reflexivity | destruct F; reflexivity]|].
      simpl in *. apply Ascii.eqb_eq in VR as ->. reflexivity. }
  destruct (accepted_netloc H); [|reflexivity].
  assert (EF : split_once "#" (P +:+ suffix_part "?" Q +:+ suffix_part "#" F)
               = (P +:+ suffix_part "?" Q, default EmptyString F)).
  { unfold split_once. destruct F as [f|]; simpl.
    - rewrite <- append_assoc, cut_app; [reflexivity|].
      rewrite has_char_app, HP1, HQ. reflexivity.
    - rewrite append_nil_r, cut_none; [reflexivity|].
      rewrite has_char_app, HP1, HQ. reflexivity. }
  rewrite EF.
  assert (EQ : split_once "?" (P +:+ suffix_part "?" Q) = (P, default EmptyString Q)).
  { unfold split_once. destruct Q as [q|]; simpl.
    - rewrite cut_app; [reflexivity | exact HP2].
    - rewrite append_nil_r, cut_none; [reflexivity | exact HP2]. }
  rewrite EQ. cbn [mbind outcome_bind scheme netloc path query fragment].
  rewrite (_splitparams_last_segment _ HP3).
  destruct (bool_decide (lower S ∈ uses_params) && has_char ";" P); reflexivity.
Qed.

Lemma normalize_url_render u :
  delimited u = true →
  normalize_url (render u) =
  if accepted_netloc (u_host u)
  then Return (rstrip "/"
                 (lower (u_scheme u) +:+ "://" +:+ u_host u +:+ u_path u))
  else Raise ValueError.
Proof.
  intros W. unfold normalize_url. rewrite (urlparse_render _ W).
  destruct (accepted_netloc (u_host u)); reflexivity.
Qed.

Lemma none_of_app_l bad s t : none_of bad (s +:+ t) = true → none_of bad s = true.
Proof. rewrite none_of_app. intros [H _]%andb_prop. exact H. Qed.

Lemma none_of_app_r bad s t : none_of bad (s +:+ t) = true → none_of bad t = true.
Proof. rewrite none_of_app. intros [_ H]%andb_prop. exact H. Qed.

Lemma strip_prefix_app p s r : strip_prefix p s = Some r → s = p +:+ r.
Proof.
  revert s. induction p as [|a p IH]; intros s; simpl.
  - intros [= ->]. reflexivity.
  - destruct s as [|b s]; [discriminate|].
    destruct (Ascii.eqb_spec a b) as [->|]; [|discriminate].
    intros E. rewrite (IH _ E). reflexivity.
Qed.

Lemma well_formed_delimited u : well_formed u = true → delimited u = true.
Proof.
  destruct u as [S H P Q F]. unfold well_formed, delimited.
  cbn [u_scheme u_host u_path u_query u_fragment].
  rewrite !andb_true_iff. intros (((((VS & VH) & VR) & VP) & VQ) & VF).
  repeat split; try assumption.
  - revert VH. apply sub_chars. reflexivity.
  - revert VP. apply sub_chars. reflexivity.
  - apply negb_true_iff. unfold last_segment.
    pose proof (rcut_spec "/" P) as R.
    destruct (rcut "/" P) as [[dir seg]|].
    + destruct R as [-> _]. apply none_of_app_r in VP.
      change (String "/" seg) with ("/" +:+ seg) in VP.
      apply none_of_app_r in VP.
      eapply none_of_has_char; [exact VP | reflexivity].
    + eapply none_of_has_char; [exact VP | reflexivity].
Qed.

Lemma split_once_spec c s :
  let '(b, r) := split_once c s in
  has_char c b = false ∧
  ∀ bad, none_of bad s = true → none_of bad b = true ∧ none_of bad r = true.
Proof.
  unfold split_once. pose proof (cut_spec c s) as C.
  destruct (cut c s) as [[b r]|].
  - destruct C as [-> Hb]. split; [exact Hb|]. intros bad Hs.
    split; [exact (none_of_app_l _ _ _ Hs)|].
    apply none_of_app_r in Hs. exact (none_of_app_r _ (String c EmptyString) r Hs).
  - split; [exact C|]. intros bad Hs. split; [exact Hs | reflexivity].
Qed.

Lemma split_scheme_spec s :
  let '(sch, rest) := split_scheme s in
  (sch = EmptyString ∨ ∃ pre, valid_scheme pre = true ∧ sch = lower pre) ∧
  ∀ bad, none_of bad s = true → none_of bad rest = true.
Proof.
  unfold split_scheme. pose proof (cut_spec ":" s) as C.
  destruct (cut ":" s) as [[[|c0 pre] rest]|]; [auto | | auto].
  destruct (is_ascii_alpha c0 && all_chars scheme_char (String c0 pre)) eqn:E;
    [|auto].
  destruct C as [-> _]. split.
  - right. exists (String c0 pre). split; [exact E | reflexivity].
  - intros bad Hs. apply none_of_app_r in Hs.
    exact (none_of_app_r _ (String ":" EmptyString) rest Hs).
Qed.

Lemma split_netloc_spec s :
  let '(n, rest) := split_netloc s in
  none_of "/?#" n = true ∧
  ∀ bad, none_of bad s = true → none_of bad n = true ∧ none_of bad rest = true.
Proof.
  unfold split_netloc, _splitnetloc.
  destruct (strip_prefix "//" s) as [r|] eqn:E.
  - apply strip_prefix_app in E as ->.
    pose proof (break_at_spec (λ c, has_char c "/?#") r) as B.
    destruct (break_at (λ c, has_char c "/?#") r) as [n rest].
    destruct B as (-> & Hn & Hr). split; [exact Hn|].
    intros bad Hs. apply none_of_app_r in Hs.
    split; [exact (none_of_app_l _ _ _ Hs) | exact (none_of_app_r _ _ _ Hs)].
  - split; [reflexivity|].
    intros bad Hs. split; [reflexivity | exact Hs].
Qed.

Lemma _splitparams_spec s :
  ∀ bad, none_of bad s = true → none_of bad (_splitparams s).1 = true.
Proof.
  intros bad Hs. unfold _splitparams.
  pose proof (rcut_spec "/" s) as R.
  destruct (rcut "/" s) as [[dir seg]|].
  - destruct R as [-> _]. pose proof (cut_spec ";" seg) as C.
    destruct (cut ";" seg) as [[b a]|]; [|exact Hs].
    destruct C as [-> _]. cbn [fst].
    pose proof (none_of_app_l _ _ _ Hs) as Hd.
    apply none_of_app_r in Hs. change (String "/" (b +:+ String ";" a))
      with ("/" +:+ b +:+ String ";" a) in Hs.
    apply none_of_app_intro; [exact Hd|].
    apply none_of_app_intro; [exact (none_of_app_l _ _ _ Hs)|].
    apply none_of_app_r in Hs. exact (none_of_app_l _ _ _ Hs).
  - pose proof (split_once_spec ";" s) as C.
    destruct (split_once ";" s) as [b r]. cbn [fst]. apply C, Hs.
Qed.

(** What [urlparse] guarantees about the components it returns. *)
Lemma urlparse_components url p :
  urlparse url = Return p →
  (scheme p = EmptyString ∨
   ∃ pre, valid_scheme pre = true ∧ scheme p = lower pre) ∧
  none_of ("/?#" +:+ unsafe_url_bytes) (netloc p) = true ∧
  none_of ("?#" +:+ unsafe_url_bytes) (path p) = true.
Proof.
  unfold urlparse. rewrite urlsplit_spec. cbv zeta.
  set (cleaned := remove_chars unsafe_url_byte (lstrip c0_control_or_space url)).
  assert (Hc : none_of unsafe_url_bytes cleaned = true)
    by apply remove_chars_none_of.
  clearbody cleaned.
  pose proof (split_scheme_spec cleaned) as S1.
  destruct (split_scheme cleaned) as [sch r1]. destruct S1 as [Hsch Hr1].
  apply Hr1 in Hc. clear Hr1.
  pose proof (split_netloc_spec r1) as S2.
  destruct (split_netloc r1) as [n r2]. destruct S2 as (Hn & Hr2).
  apply Hr2 in Hc as [Hcn Hc]. clear Hr2.
  destruct (accepted_netloc n); [|discriminate].
  pose proof (split_once_spec "#" r2) as S3.
  destruct (split_once "#" r2) as [r3 frag]. destruct S3 as [Hf Hr3].
  pose proof (split_once_spec "?" r3) as S4.
  destruct (split_once "?" r3) as [r4 q]. destruct S4 as [Hq Hr4].
  assert (Hp : none_of ("?#" +:+ unsafe_url_bytes) r4 = true).
  { apply (none_of_union "?" ("#" +:+ unsafe_url_bytes));
      [exact (has_char_none_of _ _ Hq)|].
    apply (Hr4 ("#" +:+ unsafe_url_bytes)).
    apply (none_of_union "#" unsafe_url_bytes);
      [exact (has_char_none_of _ _ Hf) | apply Hr3, Hc]. }
  cbn [mbind outcome_bind scheme netloc path query fragment].
  destruct (bool_decide (sch ∈ uses_params) && has_char ";" r4).
  - pose proof (_splitparams_spec r4 _ Hp) as Hp'.
    destruct (_splitparams r4) as [r5 prm]. intros [= <-]. cbn.
    split; [exact Hsch|]. split; [|exact Hp'].
    apply (none_of_union "/?#" unsafe_url_bytes); assumption.
  - intros [= <-]. cbn.
    split; [exact Hsch|]. split; [|exact Hp].
    apply (none_of_union "/?#" unsafe_url_bytes); assumption.
Qed.

Lemma delim_slash c :
  has_char c "/?#" = true →
  negb (has_char c ("?#" +:+ unsafe_url_bytes)) = true →
  Ascii.eqb c "/" = true.
Proof. ascii_cases c. Qed.

Lemma normalize_url_scheme_only S :
  valid_scheme S = true → normalize_url (S +:+ ":") = Return (lower S +:+ ":").
Proof.
  intros VS. unfold normalize_url, urlparse.
  rewrite (urlsplit_after_scheme S EmptyString VS eq_refl).
  cbn [split_netloc strip_prefix]. rewrite accepted_netloc_empty.
  cbn. rewrite andb_false_r. cbn.
  rewrite rstrip_app. reflexivity.
Qed.

Lemma rstrip_scheme_prefix S X :
  rstrip "/" (S +:+ "://" +:+ X) =
  match rstrip "/" X with
  | EmptyString => S +:+ ":"
  | X' => S +:+ "://" +:+ X'
  end.
Proof.
  rewrite rstrip_app, (rstrip_app _ "://" X).
  destruct (rstrip "/" X); reflexivity.
Qed.

Lemma normalize_url_fixed S X h r :
  valid_scheme S = true → lower S = S →
  none_of ("?#" +:+ unsafe_url_bytes) X = true →
  _splitnetloc (rstrip "/" X) = (h, r) →
  accepted_netloc h = true →
  has_char ";" (last_segment r) = false →
  normalize_url (rstrip "/" (S +:+ "://" +:+ X))
  = Return (rstrip "/" (S +:+ "://" +:+ X)).
Proof.
  intros VS LS HX EB Hacc Hsemi. rewrite rstrip_scheme_prefix.
  pose proof (rstrip_none_of _ "/" _ HX) as HX'.
  pose proof (rstrip_idem "/" X) as Idem.
  destruct (rstrip "/" X) as [|a X'] eqn:E.
  - rewrite (normalize_url_scheme_only _ VS), LS. reflexivity.
  - set (Y := String a X') in *. unfold _splitnetloc in EB.
    pose proof (break_at_spec (λ c, has_char c "/?#") Y) as B.
    rewrite EB in B. destruct B as (EY & Hh & Hp).
    set (u := {| u_scheme := S; u_host := h; u_path := r;
                 u_query := None; u_fragment := None |}).
    assert (R : render u = S +:+ "://" +:+ Y).
    { unfold render, u. cbn. rewrite EY, !append_nil_r. reflexivity. }
    rewrite EY in HX'.
    pose proof (none_of_app_l _ _ _ HX') as HXh.
    pose proof (none_of_app_r _ _ _ HX') as HXp.
    assert (W : delimited u = true).
    { unfold delimited, u.
      cbn [u_scheme u_host u_path u_query u_fragment default].
      rewrite VS, Hsemi. cbn [andb negb].
      repeat (apply andb_true_intro; split); try reflexivity.
      - apply (none_of_union "/?#" unsafe_url_bytes); [exact Hh|].
        revert HXh. apply sub_chars. reflexivity.
      - destruct r as [|c r]; [reflexivity|]. cbn [rooted].
        unfold none_of in HXp. cbn [all_chars] in HXp.
        apply andb_prop in HXp as [Hc _]. exact (delim_slash _ Hp Hc).
      - exact HXp. }
    rewrite <- R, (normalize_url_render _ W), R. unfold u.
    cbn [u_scheme u_host u_path]. rewrite Hacc, LS, <- EY.
    rewrite rstrip_scheme_prefix, Idem. reflexivity.
Qed.

(** [normalize_url] returns a string without a trailing slash, or raises
    the [ValueError] of [urlparse]. *)
Lemma normalize_url_outcomes url :
  match normalize_url url with
  | Return c => last_char c ≠ Some "/"%char
  | Raise e => e = ValueError
  | Block => False
  end.
Proof.
  unfold normalize_url, urlparse. rewrite urlsplit_spec. cbv zeta.
  destruct (split_scheme _) as [sch r1]. destruct (split_netloc r1) as [n r2].
  destruct (accepted_netloc n); [|reflexivity].
  destruct (split_once "#" r2) as [r3 f]. destruct (split_once "?" r3) as [r4 q].
  cbn [mbind outcome_bind scheme path].
  destruct (bool_decide (sch ∈ uses_params) && has_char ";" r4);
    [destruct (_splitparams r4)|]; cbn [mbind outcome_bind];
    apply rstrip_last_char.
Qed.

Lemma split_once_head c s :
  let '(b, _) := split_once c s in
  match b with
  | String a _ => ∃ s', s = String a s'
  | EmptyString => True
  end.
Proof.
  unfold split_once. destruct s as [|a s]; [exact I|]. cbn [cut].
  destruct (Ascii.eqb a c); [exact I|].
  destruct (cut c s) as [[b r]|]; eauto.
Qed.

Lemma split_netloc_head s :
  let '(n, rest) := split_netloc s in
  n ≠ EmptyString →
  match rest with
  | String a _ => has_char a "/?#" = true
  | EmptyString => True
  end.
Proof.
  unfold split_netloc, _splitnetloc.
  destruct (strip_prefix "//" s) as [r|]; [|congruence].
  pose proof (break_at_spec (λ c, has_char c "/?#") r) as B.
  destruct (break_at (λ c, has_char c "/?#") r) as [n rest].
  destruct B as (_ & _ & B). intros _. exact B.
Qed.

Lemma delim_rooted a :
  has_char a "/?#" = true → Ascii.eqb a "#" = false → Ascii.eqb a "?" = false →
  Ascii.eqb a "/" = true.
Proof. ascii_cases a. Qed.

Lemma _splitparams_rooted p :
  rooted p = true → rooted (_splitparams p).1 = true.
Proof.
  intros H. unfold _splitparams. pose proof (rcut_spec "/" p) as R.
  destruct (rcut "/" p) as [[dir seg]|].
  - destruct (cut ";" seg) as [[b a]|]; [|exact H]. cbn [fst].
    destruct R as [-> _]. destruct dir as [|c dir]; [reflexivity | exact H].
  - pose proof (split_once_head ";" p) as C.
    destruct (split_once ";" p) as [b r]. cbn [fst].
    destruct b as [|a b]; [reflexivity|]. destruct C as [s' ->]. exact H.
Qed.

(** The netloc that [urlparse] returns is accepted, and the path that
    follows a netloc is empty or starts with a slash. *)
Lemma urlparse_netloc url p :
  urlparse url = Return p →
  accepted_netloc (netloc p) = true ∧
  (netloc p ≠ EmptyString → rooted (path p) = true).
Proof.
  unfold urlparse. rewrite urlsplit_spec. cbv zeta.
  destruct (split_scheme _) as [sch r1].
  pose proof (split_netloc_head r1) as S2.
  destruct (split_netloc r1) as [n r2].
  destruct (accepted_netloc n) eqn:A; [|discriminate].
  pose proof (split_once_spec "#" r2) as S3.
  pose proof (split_once_head "#" r2) as H3.
  destruct (split_once "#" r2) as [r3 frag]. destruct S3 as [Hf _].
  pose proof (split_once_spec "?" r3) as S4.
  pose proof (split_once_head "?" r3) as H4.
  destruct (split_once "?" r3) as [r4 q]. destruct S4 as [Hq _].
  assert (R4 : n ≠ EmptyString → rooted r4 = true).
  { intros Hn. specialize (S2 Hn). destruct r4 as [|a r4]; [reflexivity|].
    destruct H4 as [s3 ->]. destruct H3 as [s2 ->]. cbn [rooted].
    cbn [has_char] in Hf, Hq.
    apply orb_false_elim in Hf as [Hf _]. apply orb_false_elim in Hq as [Hq _].
    exact (delim_rooted a S2 Hf Hq). }
  cbn [mbind outcome_bind scheme netloc path query fragment].
  destruct (bool_decide (sch ∈ uses_params) && has_char ";" r4).
  - pose proof (_splitparams_rooted r4) as P.
    destruct (_splitparams r4) as [r5 prm]. intros [= <-]. cbn. auto.
  - intros [= <-]. cbn. auto.
Qed.

Lemma rstrip_id c s : has_char c s = false → rstrip c s = s.
Proof.
  induction s as [|a s IH]; [reflexivity|]. cbn [has_char rstrip].
  intros [Ha Hs]%orb_false_elim. rewrite (IH Hs), Ha.
  destruct s; reflexivity.
Qed.

Lemma rstrip_rooted p : rooted p = true → rooted (rstrip "/" p) = true.
Proof.
  destruct p as [|a p]; [reflexivity|]. cbn [rooted rstrip]. intros H.
  destruct (rstrip "/" p); [rewrite H|]; assumption || reflexivity.
Qed.

(** Where the normal form of a string with a netloc has its netloc and its
    path. *)
Lemma authority_of_netloc n pth :
  n ≠ EmptyString → none_of "/?#" n = true → rooted pth = true →
  _splitnetloc (rstrip "/" (n +:+ pth)) = (n, rstrip "/" pth).
Proof.
  intros Hne Hn Hr. unfold _splitnetloc. rewrite rstrip_app.
  pose proof (rstrip_rooted _ Hr) as Hr'.
  destruct (rstrip "/" pth) as [|a p'] eqn:E.
  - rewrite rstrip_id by (eapply none_of_has_char; [exact Hn | reflexivity]).
    rewrite <- (append_nil_r n) at 1. apply break_at_app; [exact Hn | exact I].
  - apply break_at_app; [exact Hn|]. cbn [rooted] in Hr'.
    apply Ascii.eqb_eq in Hr' as ->. reflexivity.
Qed.

(** [normalize_url] raises exactly when the netloc of its argument is not
    accepted. *)
Lemma normalize_url_accepts url :
  if accepted_netloc (netloc_of url)
  then ∃ c, normalize_url url = Return c ∧ last_char c ≠ Some "/"%char
  else normalize_url url = Raise ValueError.
Proof.
  unfold normalize_url, urlparse, netloc_of. rewrite urlsplit_spec. cbv zeta.
  destruct (split_scheme _) as [sch r1]. destruct (split_netloc r1) as [n r2].
  cbn [fst]. destruct (accepted_netloc n); [|reflexivity].
  destruct (split_once "#" r2) as [r3 f]. destruct (split_once "?" r3) as [r4 q].
  cbn [mbind outcome_bind scheme path].
  destruct (bool_decide (sch ∈ uses_params) && has_char ";" r4);
    [destruct (_splitparams r4)|]; cbn [mbind outcome_bind];
    eexists; (split; [reflexivity | apply rstrip_last_char]).
Qed.

(** The bytes that are not ASCII. *)
Definition non_ascii_bytes : string :=
  string_of_list_ascii (map ascii_of_nat (seq 128 128)).

Lemma isascii_none_of s : isascii s = none_of non_ascii_bytes s.
Proof.
  unfold isascii, none_of. induction s as [|a s IH]; cbn [all_chars];
    [reflexivity|].
  rewrite IH. f_equal. ascii_cases a.
Qed.

(** A netloc of ASCII characters without brackets is accepted. *)
Lemma accepted_netloc_plain n :
  isascii n = true → none_of "[]" n = true → accepted_netloc n = true.
Proof.
  intros Ha Hb. unfold accepted_netloc, invalid_ipv6, _checknetloc.
  rewrite (none_of_has_char _ _ "[" Hb eq_refl),
    (none_of_has_char _ _ "]" Hb eq_refl), Ha, orb_true_r.
  reflexivity.
Qed.

Lemma canonical_no_trailing_slash c : canonical c → last_char c ≠ Some "/"%char.
Proof.
  intros [url H]. pose proof (normalize_url_outcomes url) as O.
  rewrite H in O. exact O.
Qed.

(** ** Facts about the rate limiter *)

Lemma fresh_spec now t : fresh now t = true ↔ (now - t <= 1)%Q.
Proof. apply Qle_bool_iff. Qed.

Lemma filter_fresh_all now l :
  Forall (λ t, (now - t <= 1)%Q) l → List.filter (fresh now) l = l.
Proof.
  induction 1 as [|t l Ht Hl IH]; simpl; [reflexivity|].
  apply fresh_spec in Ht. rewrite Ht, IH. reflexivity.
Qed.

Lemma prune_sorted now l :
  StronglySorted Qle l → prune now l = List.filter (fresh now) l.
Proof.
  induction 1 as [|t l Hs IH Hall]; simpl; [reflexivity|].
  destruct (Qlt_le_dec 1 (now - t)) as [Old|New].
  - destruct (fresh now t) eqn:E; [|exact IH].
    apply fresh_spec in E. lra.
  - apply fresh_spec in New as E. rewrite E. f_equal. symmetry.
    apply filter_fresh_all. rewrite Forall_forall in *. intros t' Ht'.
    specialize (Hall _ Ht'). apply fresh_spec in E. lra.
Qed.

Lemma prune_head now l t l' :
  prune now l = t :: l' → (now - t <= 1)%Q.
Proof.
  induction l as [|t0 l IH]; simpl; [discriminate|].
  destruct (Qlt_le_dec 1 (now - t0)); [exact IH|].
  intros [= -> ->]. assumption.
Qed.

Lemma prune_Forall (P : Q → Prop) now l : Forall P l → Forall P (prune now l).
Proof.
  induction 1 as [|t l Ht Hl IH]; simpl; [constructor|].
  destruct (Qlt_le_dec 1 (now - t)); [exact IH | constructor; assumption].
Qed.

Lemma prune_StronglySorted now l :
  StronglySorted Qle l → StronglySorted Qle (prune now l).
Proof.
  induction 1 as [|t l Hs IH Hall]; simpl; [constructor|].
  destruct (Qlt_le_dec 1 (now - t)); [exact IH | constructor; assumption].
Qed.

Lemma StronglySorted_snoc l (now : Q) :
  StronglySorted Qle l → Forall (λ t, (t <= now)%Q) l →
  StronglySorted Qle (l ++ [now]).
Proof.
  induction 1 as [|t l Hs IH Hall]; intros Hle; simpl.
  - repeat constructor.
  - inversion Hle; subst. constructor; [auto|].
    apply Forall_app. split; [exact Hall | repeat constructor; assumption].
Qed.

(** [self.request_times[0]] on an empty window: with a limit of 0 the
    length test passes though nothing is in the window. *)
Example _rate_limit_request_empty_window :
  _rate_limit_request
    {| rate_limit := 0; cache := ∅; semaphore := 1; request_times := [];
       clock := 0; network_log := [] |}
  = Raise IndexError.
Proof. reflexivity. Qed.

(** With a limit of at least 1 the limiter returns; it touches the window
    and the clock only, and the clock does not go back. *)
Lemma _rate_limit_request_returns s :
  (1 ≤ rate_limit s)%Z →
  ∃ s', _rate_limit_request s = Return s' ∧
    rate_limit s' = rate_limit s ∧ cache s' = cache s ∧
    semaphore s' = semaphore s ∧ network_log s' = network_log s ∧
    (clock s <= clock s')%Q.
Proof.
  intros Hlimit. unfold _rate_limit_request.
  cbn [request_times with_request_times rate_limit].
  destruct (Z.of_nat (length (prune (clock s) (request_times s)))
            >=? rate_limit s)%Z eqn:E.
  - destruct (prune (clock s) (request_times s)) as [|oldest rest].
    { apply Z.geb_le in E. simpl in E. lia. }
    destruct (Qlt_le_dec 0 (1 - (clock s - oldest))).
    + eexists. split; [reflexivity|]. repeat split; try reflexivity.
      cbn. lra.
    + eexists. split; [reflexivity|]. repeat split; try reflexivity.
      cbn. lra.
  - eexists. split; [reflexivity|]. repeat split; try reflexivity. cbn. lra.
Qed.

Lemma _rate_limit_request_frame s s' :
  _rate_limit_request s = Return s' →
  rate_limit s' = rate_limit s ∧ cache s' = cache s ∧
  semaphore s' = semaphore s ∧ network_log s' = network_log s.
Proof.
  unfold _rate_limit_request.
  cbn [request_times with_request_times rate_limit].
  destruct (Z.of_nat (length (prune (clock s) (request_times s)))
            >=? rate_limit s)%Z.
  - destruct (prune (clock s) (request_times s)) as [|oldest rest];
      [discriminate|].
    destruct (Qlt_le_dec 0 (1 - (clock s - oldest)));
      intros [= <-]; repeat split; reflexivity.
  - intros [= <-]; repeat split; reflexivity.
Qed.

(** The window stays sorted, and below the clock, across a call. *)
Lemma _rate_limit_request_sorted s s' :
  StronglySorted Qle (request_times s) →
  Forall (λ t, (t <= clock s)%Q) (request_times s) →
  _rate_limit_request s = Return s' →
  StronglySorted Qle (request_times s') ∧
  Forall (λ t, (t <= clock s')%Q) (request_times s').
Proof.
  intros Hs Hc. unfold _rate_limit_request.
  cbn [request_times with_request_times rate_limit].
  pose proof (prune_StronglySorted (clock s) _ Hs) as Ps.
  pose proof (prune_Forall _ (clock s) _ Hc) as Pc.
  assert (G : ∀ d, (0 <= d)%Q →
    StronglySorted Qle (prune (clock s) (request_times s) ++ [clock s]) ∧
    Forall (λ t, (t <= clock s + d)%Q)
      (prune (clock s) (request_times s) ++ [clock s])).
  { intros d Hd. split; [apply StronglySorted_snoc; assumption|].
    apply Forall_app. split.
    - eapply Forall_impl; [exact Pc|]. simpl. intros t Ht. lra.
    - repeat constructor. lra. }
  destruct (Z.of_nat (length (prune (clock s) (request_times s)))
            >=? rate_limit s)%Z.
  - destruct (prune (clock s) (request_times s)) as [|oldest rest] eqn:E;
      [discriminate|].
    destruct (Qlt_le_dec 0 (1 - (clock s - oldest))) as [Hpos|Hneg];
      intros [= <-]; cbn.
    + apply G. lra.
    + destruct (G 0%Q) as [G1 G2]; [lra|]. split; [exact G1|].
      eapply Forall_impl; [exact G2|]. simpl. intros t Ht. lra.
  - intros [= <-]; cbn. destruct (G 0%Q) as [G1 G2]; [lra|]. split; [exact G1|].
    eapply Forall_impl; [exact G2|]. simpl. intros t Ht. lra.
Qed.

(** ** Facts about the fetcher *)

Example new_finder_init : __init__ 10 0 = Return new_finder.
Proof. reflexivity. Qed.

Lemma get_page_content_hit env url s text :
  cache s !! url = Some text →
  get_page_content env url s = Return (Some text, s).
Proof. intros H. unfold get_page_content. rewrite H. reflexivity. Qed.

Lemma get_page_content_miss env url s :
  cache s !! url = None → (0 < semaphore s)%Z → (1 ≤ rate_limit s)%Z →
  ∃ s', network_log s' = network_log s ++ [url] ∧
        rate_limit s' = rate_limit s ∧ semaphore s' = semaphore s ∧
        match body (session_get env (length (network_log s)) url) with
        | Some text =>
            get_page_content env url s = Return (Some text, s') ∧
            cache s' = <[url := text]> (cache s)
        | None =>
            get_page_content env url s = Return (None, s') ∧
            cache s' = cache s
        end.
Proof.
  intros Hmiss Hsem Hlimit. unfold get_page_content. rewrite Hmiss.
  destruct (Z.leb_spec (semaphore s) 0); [lia|].
  destruct (_rate_limit_request_returns (with_semaphore (semaphore s - 1) s))
    as (s1 & -> & F1 & F2 & F3 & F4 & _); [exact Hlimit|].
  cbn [mbind outcome_bind]. cbv zeta. cbn in F1, F2, F3, F4. rewrite F4.
  destruct (body (session_get env (length (network_log s)) url)) as [text|].
  - eexists. split; [|split; [|split; [|split; [reflexivity|]]]]; cbn.
    + reflexivity.
    + exact F1.
    + rewrite F3. lia.
    + rewrite F2. reflexivity.
  - eexists. split; [|split; [|split; [|split; [reflexivity|]]]]; cbn.
    + reflexivity.
    + exact F1.
    + rewrite F3. lia.
    + exact F2.
Qed.

(** A returning fetch keeps every cache entry, the limit and the
    semaphore counter. *)
Lemma get_page_content_frame env url s content s' :
  get_page_content env url s = Return (content, s') →
  (∀ k v, cache s !! k = Some v → cache s' !! k = Some v) ∧
  rate_limit s' = rate_limit s ∧ semaphore s' = semaphore s.
Proof.
  unfold get_page_content. destruct (cache s !! url) as [text|] eqn:Hc.
  - intros [= <- <-]. auto.
  - destruct (Z.leb_spec (semaphore s) 0); [discriminate|].
    destruct (_rate_limit_request (with_semaphore (semaphore s - 1) s))
      as [s1| |] eqn:R; [|discriminate..].
    apply _rate_limit_request_frame in R as (F1 & F2 & F3 & F4).
    cbn [mbind outcome_bind]. cbv zeta. cbn in F1, F2, F3, F4.
    destruct (body (session_get env (length (network_log s1)) url)) as [text|];
      intros [= <- <-]; cbn; rewrite ?F1, ?F2, ?F3;
      (split; [|split; [reflexivity | lia]]).
    + intros k v Hk. destruct (decide (url = k)) as [->|Hne]; [congruence|].
      rewrite lookup_insert_ne by exact Hne. exact Hk.
    + auto.
Qed.

Lemma fetched_cache env s s' :
  fetched env s s' → ∀ k v, cache s !! k = Some v → cache s' !! k = Some v.
Proof.
  induction 1 as [|s1 url content s2 _ IH Hget]; [auto|].
  intros k v Hk. eapply get_page_content_frame; eauto.
Qed.

Lemma get_page_content_cached env url s text s' :
  get_page_content env url s = Return (Some text, s') →
  cache s' !! url = Some text.
Proof.
  unfold get_page_content. destruct (cache s !! url) as [t|] eqn:Hc.
  - intros [= <- <-]. exact Hc.
  - destruct (Z.leb_spec (semaphore s) 0); [discriminate|].
    destruct (_rate_limit_request (with_semaphore (semaphore s - 1) s))
      as [s1| |] eqn:R; [|discriminate..].
    cbn [mbind outcome_bind]. cbv zeta.
    destruct (body (session_get env (length (network_log s1)) url)) as [t|];
      intros [= <- <-]; cbn. apply lookup_insert_eq.
Qed.


(** ** Facts about the search *)

(** Nothing in [normalize_url] can block. *)
Lemma normalize_url_no_block url : normalize_url url ≠ Block.
Proof.
  unfold normalize_url, urlparse. rewrite urlsplit_spec. cbv zeta.
  destruct (split_scheme _) as [sch r1]. destruct (split_netloc r1) as [n r2].
  destruct (accepted_netloc n); [|discriminate].
  destruct (split_once "#" r2) as [r3 f]. destruct (split_once "?" r3) as [r4 q].
  cbn [mbind outcome_bind scheme path].
  destruct (bool_decide (sch ∈ uses_params) && has_char ";" r4);
    [destruct (_splitparams r4)|]; discriminate.
Qed.

(** On a ready finder a fetch returns, and leaves the finder ready. *)
Lemma get_page_content_returns env url s :
  ready s →
  ∃ content s', get_page_content env url s = Return (content, s') ∧ ready s'.
Proof.
  intros [Hsem Hlimit]. destruct (cache s !! url) as [text|] eqn:Hc.
  - exists (Some text), s.
    split; [apply get_page_content_hit, Hc | split; assumption].
  - destruct (get_page_content_miss env url s Hc Hsem Hlimit)
      as (s' & _ & Hl & Hs & H).
    destruct (body _) as [text|]; destruct H as [-> _]; eexists _, s';
      (split; [reflexivity | split; lia]).
Qed.

Section Search.

Context (env : environment) (target_url : string) (max_depth : Z).

Lemma for_links_no_block path links v q :
  for_links target_url max_depth path links v q ≠ Block.
Proof.
  revert v q. induction links as [|link links IH]; intros v q; simpl;
    [discriminate|].
  pose proof (normalize_url_no_block link) as N.
  destruct (normalize_url link) as [c| |]; [|discriminate|contradiction].
  cbn [mbind outcome_bind].
  destruct (String.eqb c target_url); [discriminate|].
  destruct (bool_decide (c ∉ v) && (Z.of_nat (length path) <? max_depth)%Z);
    apply IH.
Qed.

(** What the [for] loop appends to the queue: paths one longer than the
    path it extends, and only below the depth bound. *)
Lemma for_links_added path links v q found v' q' :
  for_links target_url max_depth path links v q = Return (found, v', q') →
  ∃ added, q' = q ++ added ∧
    Forall (λ n : node, length n.2 = S (length path) ∧
                        (Z.of_nat (length path) < max_depth)%Z) added.
Proof.
  revert v q. induction links as [|link links IH]; intros v q; simpl.
  - intros [= <- <- <-]. exists []. rewrite app_nil_r. auto.
  - destruct (normalize_url link) as [c| |]; [|discriminate..].
    cbn [mbind outcome_bind].
    destruct (String.eqb c target_url).
    { intros [= <- <- <-]. exists []. rewrite app_nil_r. auto. }
    destruct (bool_decide (c ∉ v)); cbn [andb]; [|apply IH].
    destruct (Z.ltb_spec (Z.of_nat (length path)) max_depth); [|apply IH].
    intros Hrec. destruct (IH _ _ Hrec) as (added & -> & Hadded).
    exists ((c, path ++ [c]) :: added). split.
    + rewrite <- app_assoc. reflexivity.
    + constructor; [|exact Hadded]. cbn. rewrite length_app. cbn. split; lia.
Qed.

(** *** Termination *)

(** The loop, started with the variables [b], ends: some number of turns
    gives a result that is a return or an exception, and more turns give
    the same. *)
Definition halts (b : search) : Prop :=
  ∃ fuel r, r ≠ Block ∧
    ∀ fuel', fuel ≤ fuel' →
      bfs_loop env target_url max_depth fuel' b = Some r.

Lemma halts_next b b' :
  turn env target_url max_depth b = Some (Return (None, b')) → halts b' → halts b.
Proof.
  intros Ht (fuel & r & Hr & Hrun). exists (S fuel), r. split; [exact Hr|].
  intros [|fuel'] Hle; [lia|]. simpl. rewrite Ht. apply Hrun. lia.
Qed.

Lemma halts_empty b : turn env target_url max_depth b = None → halts b.
Proof.
  intros Ht. exists 1, (Return (None, finder b)). split; [discriminate|].
  intros [|fuel'] Hle; [lia|]. simpl. rewrite Ht. reflexivity.
Qed.

Lemma halts_found b found b' :
  turn env target_url max_depth b = Some (Return (Some found, b')) → halts b.
Proof.
  intros Ht. exists 1, (Return (Some found, finder b')). split; [discriminate|].
  intros [|fuel'] Hle; [lia|]. simpl. rewrite Ht. reflexivity.
Qed.

Lemma halts_raise b e : turn env target_url max_depth b = Some (Raise e) → halts b.
Proof.
  intros Ht. exists 1, (Raise e). split; [discriminate|].
  intros [|fuel'] Hle; [lia|]. simpl. rewrite Ht. reflexivity.
Qed.

(** The number of links that may still be appended below a node. *)
Definition room (n : node) : nat :=
  Z.to_nat (max_depth - Z.of_nat (length n.2)).

(** One pass over the nodes [q1] at the front of the queue: whatever they
    append has less room than they have. *)
Lemma halts_pass k q1 :
  Forall (λ n, room n ≤ k) q1 →
  ∀ q2 v s,
    ready s →
    Forall (λ n, room n < k) q2 →
    (∀ b, ready (finder b) → Forall (λ n, room n < k) (queue b) → halts b) →
    halts {| visited := v; queue := q1 ++ q2; finder := s |}.
Proof.
  induction 1 as [|[u path] q1 Hn Hq1 IH]; intros q2 v s Hready Hq2 Hcont.
  - apply Hcont; assumption.
  - set (b := {| visited := v; queue := ((u, path) :: q1) ++ q2;
                 finder := s |}).
    assert (Hturn : ∃ o, turn env target_url max_depth b = Some o)
      by (eexists; reflexivity).
    destruct Hturn as [o Hturn]. pose proof Hturn as Hturn'.
    unfold turn in Hturn'. cbn [queue b app visited finder] in Hturn'.
    injection Hturn' as Ho.
    destruct (Z.of_nat (length path) >? max_depth)%Z.
    { subst o. eapply halts_next; [exact Hturn|]. apply IH; assumption. }
    destruct (get_page_content_returns env u s Hready)
      as (content & s' & Hget & Hready').
    rewrite Hget in Ho. cbn [mbind outcome_bind] in Ho.
    destruct (falsy content).
    { subst o. eapply halts_next; [exact Hturn|]. apply IH; assumption. }
    cbv zeta in Ho.
    match type of Ho with
    | context [for_links ?t ?d ?p ?l ?w ?q] =>
        pose proof (for_links_no_block p l w q) as NB;
        destruct (for_links t d p l w q)
          as [[[found v'] q']|e|] eqn:Hfor
    end; [| |contradiction]; cbn [mbind outcome_bind] in Ho; subst o;
      [|eapply halts_raise; exact Hturn].
    destruct found as [found|]; [eapply halts_found; exact Hturn|].
    eapply halts_next; [exact Hturn|].
    destruct (for_links_added _ _ _ _ _ _ _ Hfor) as (added & -> & Hadded).
    rewrite <- app_assoc. apply IH; [exact Hready'| |exact Hcont].
    apply Forall_app. split; [exact Hq2|].
    eapply Forall_impl; [exact Hadded|]. intros n [Hlen Hlt].
    unfold room in *. cbn [snd] in Hn. rewrite Hlen. lia.
Qed.

Lemma halts_room k :
  ∀ b, ready (finder b) → Forall (λ n, room n < k) (queue b) → halts b.
Proof.
  induction k as [|k IH]; intros [v q s] Hready Hq; cbn [queue finder] in *.
  - destruct q as [|n q]; [apply halts_empty; reflexivity|].
    inversion Hq; subst. lia.
  - rewrite <- (app_nil_r q).
    apply (halts_pass k); [|exact Hready|constructor|exact IH].
    eapply Forall_impl; [exact Hq|]. intros n Hn. simpl in Hn. lia.
Qed.


(** *** The loop variables over a search *)

(** What a turn does to the queue: it takes the head off and appends
    paths within the depth bound. *)
Lemma turn_enqueues b found b' :
  turn env target_url max_depth b = Some (Return (found, b')) →
  ∃ n rest added, queue b = n :: rest ∧ queue b' = rest ++ added ∧
    Forall (λ m : node, (Z.of_nat (length m.2) ≤ max_depth)%Z) added.
Proof.
  unfold turn. destruct (queue b) as [|[u path] rest]; [discriminate|].
  intros [= Ho]. exists (u, path), rest.
  destruct (Z.of_nat (length path) >? max_depth)%Z.
  { injection Ho as <- <-. exists []. rewrite app_nil_r. auto. }
  destruct (get_page_content env u (finder b)) as [[content s]|e|];
    [|discriminate..].
  cbn [mbind outcome_bind] in Ho. destruct (falsy content).
  { injection Ho as <- <-. exists []. rewrite app_nil_r. auto. }
  cbv zeta in Ho.
  match type of Ho with
  | context [for_links ?t ?d ?p ?l ?w ?q] =>
      destruct (for_links t d p l w q)
        as [[[found0 v'] q']|e|] eqn:Hfor
  end; [|discriminate..].
  cbn [mbind outcome_bind] in Ho. injection Ho as <- <-.
  destruct (for_links_added _ _ _ _ _ _ _ Hfor) as (added & -> & Hadded).
  exists added. split; [reflexivity|]. split; [reflexivity|].
  eapply Forall_impl; [exact Hadded|]. intros m [Hlen Hlt]. lia.
Qed.

(** Everything in the queue is the seed or a path within the bound. *)
Lemma visits_depth start_url s b :
  visits env target_url max_depth (initial start_url s) b →
  Forall (λ n : node, n = (start_url, [start_url]) ∨
                      (Z.of_nat (length n.2) ≤ max_depth)%Z) (queue b).
Proof.
  induction 1 as [|found b' b'' _ IH Hturn].
  - cbn. constructor; [left; reflexivity | constructor].
  - destruct (turn_enqueues _ _ _ Hturn)
      as (n & rest & added & Hq & -> & Hadded).
    rewrite Hq in IH. inversion IH; subst.
    apply Forall_app. split; [assumption|].
    eapply Forall_impl; [exact Hadded|]. auto.
Qed.

(** *** The paths in the queue *)

(** A path that starts at [start_url], is made of canonical URLs without
    repetition, stays inside the visited set and away from the target. *)
Definition path_ok (start_url : string) (v : gset string) (path : list string)
  : Prop :=
  NoDup path ∧ (∀ x, x ∈ path → x ∈ v) ∧ (target_url ∉ path) ∧
  head path = Some start_url ∧ Forall canonical path.

Definition good_path (start_url : string) (path : list string) : Prop :=
  NoDup path ∧ head path = Some start_url ∧ last path = Some target_url ∧
  Forall canonical path.

Lemma path_ok_mono start_url v v' path :
  v ⊆ v' → path_ok start_url v path → path_ok start_url v' path.
Proof.
  intros Hsub (H1 & H2 & H3 & H4 & H5). repeat split; auto.
Qed.

Lemma path_ok_head start_url v path c :
  path_ok start_url v path → head (path ++ [c]) = Some start_url.
Proof.
  intros (_ & _ & _ & H & _). destruct path; [discriminate | exact H].
Qed.

Lemma for_links_paths start_url path links v q found v' q' :
  path_ok start_url v path →
  Forall (λ n : node, path_ok start_url v n.2) q →
  for_links target_url max_depth path links v q = Return (found, v', q') →
  Forall (λ n : node, path_ok start_url v' n.2) q' ∧
  ∀ p, found = Some p → good_path start_url p.
Proof.
  revert v q. induction links as [|link links IH]; intros v q Hpath Hq; simpl.
  - intros [= <- <- <-]. split; [exact Hq | discriminate].
  - destruct (normalize_url link) as [c| |] eqn:Hc; [|discriminate..].
    cbn [mbind outcome_bind].
    destruct (String.eqb_spec c target_url) as [->|Hne].
    { intros [= <- <- <-]. split; [exact Hq|]. intros p [= <-].
      destruct Hpath as (H1 & H2 & H3 & H4 & H5).
      repeat split.
      - apply NoDup_app. repeat split; [exact H1| |apply NoDup_singleton].
        intros x Hx Hx'. apply list_elem_of_singleton in Hx' as ->. contradiction.
      - eapply path_ok_head. repeat split; eauto.
      - apply last_snoc.
      - apply Forall_app. split; [exact H5|]. repeat constructor. exists link. exact Hc. }
    destruct (bool_decide (c ∉ v)) eqn:Hv; cbn [andb]; [|apply IH; assumption].
    destruct (Z.ltb_spec (Z.of_nat (length path)) max_depth); [|apply IH; assumption].
    apply bool_decide_eq_true in Hv.
    assert (Hsub : v ⊆ {[c]} ∪ v) by apply union_subseteq_r.
    apply IH.
    + eapply path_ok_mono; eassumption.
    + apply Forall_app. split.
      * eapply Forall_impl; [exact Hq|]. intros n. apply path_ok_mono, Hsub.
      * repeat constructor; cbn [snd].
        destruct Hpath as (H1 & H2 & H3 & H4 & H5).
        -- apply NoDup_app. repeat split; [exact H1| |apply NoDup_singleton].
           intros x Hx Hx'. apply list_elem_of_singleton in Hx' as ->.
           apply Hv, H2, Hx.
        -- intros x [Hx|Hx]%elem_of_app.
           ++ apply Hsub. destruct Hpath as (_ & H2 & _). auto.
           ++ apply list_elem_of_singleton in Hx as ->.
              apply elem_of_union_l, elem_of_singleton. reflexivity.
        -- intros [Hx|Hx]%elem_of_app.
           ++ destruct Hpath as (_ & _ & H3 & _). contradiction.
           ++ apply list_elem_of_singleton in Hx. congruence.
        -- eapply path_ok_head. exact Hpath.
        -- destruct Hpath as (_ & _ & _ & _ & H5).
           apply Forall_app. split; [exact H5|]. repeat constructor.
           exists link. exact Hc.
Qed.

Lemma turn_paths start_url b found b' :
  Forall (λ n : node, path_ok start_url (visited b) n.2) (queue b) →
  turn env target_url max_depth b = Some (Return (found, b')) →
  Forall (λ n : node, path_ok start_url (visited b') n.2) (queue b') ∧
  ∀ p, found = Some p → good_path start_url p.
Proof.
  unfold turn. destruct (queue b) as [|[u path] rest]; [discriminate|].
  intros Hq [= Ho]. inversion Hq as [|? ? Hpath Hrest]; subst.
  destruct (Z.of_nat (length path) >? max_depth)%Z.
  { injection Ho as <- <-. split; [exact Hrest | discriminate]. }
  destruct (get_page_content env u (finder b)) as [[content s]|e|];
    [|discriminate..].
  cbn [mbind outcome_bind] in Ho. destruct (falsy content).
  { injection Ho as <- <-. split; [exact Hrest | discriminate]. }
  cbv zeta in Ho.
  match type of Ho with
  | context [for_links ?t ?d ?p ?l ?w ?q] =>
      destruct (for_links t d p l w q)
        as [[[found0 v'] q']|e|] eqn:Hfor
  end; [|discriminate..].
  cbn [mbind outcome_bind] in Ho. injection Ho as <- <-.
  exact (for_links_paths _ _ _ _ _ _ _ _ Hpath Hrest Hfor).
Qed.

Lemma bfs_loop_paths start_url fuel b p s :
  Forall (λ n : node, path_ok start_url (visited b) n.2) (queue b) →
  bfs_loop env target_url max_depth fuel b = Some (Return (Some p, s)) →
  good_path start_url p.
Proof.
  revert b. induction fuel as [|fuel IH]; intros b Hq; simpl; [discriminate|].
  destruct (turn env target_url max_depth b) as [[[[found|] b']|e|]|] eqn:Hturn;
    try discriminate.
  - intros [= <- <-]. eapply turn_paths; eauto.
  - apply IH. eapply turn_paths; eauto.
Qed.

End Search.

(** * The statements about the program *)

(** ** The link classifier: C1, C6, C10 *)

(** C1 (code defect).  On the same-host full URL
    [https://en.wikipedia.org/wiki/Foo] the host occurs in the link and the
    text after the article path prefix is [Foo], which the checks of the
    bare-path case accept; yet [_is_valid_wikipedia_link] returns [False].
    By [full_url_branch_rejects] this is so for every link that does not
    itself start with ['/wiki/']. *)
Theorem C1_full_url_is_rejected :
  contains "en.wikipedia.org" "https://en.wikipedia.org/wiki/Foo" = true ∧
  last_piece (split "/wiki/" "https://en.wikipedia.org/wiki/Foo") = "Foo"%string ∧
  classify_remainder "Foo" = true ∧
  _is_valid_wikipedia_link "https://en.wikipedia.org/wiki/Foo"
                           "en.wikipedia.org" = false.
Proof. repeat split; vm_compute; reflexivity. Qed.

(** C6.  For every host, ['/wiki/Category:Foo'] is rejected, ['/wiki/Foo'] is
    accepted and ['/wiki/Foo#Bar'] is rejected. *)
Theorem C6_classifier_examples (host : string) :
  _is_valid_wikipedia_link "/wiki/Category:Foo" host = false ∧
  _is_valid_wikipedia_link "/wiki/Foo" host = true ∧
  _is_valid_wikipedia_link "/wiki/Foo#Bar" host = false.
Proof. rewrite !_is_valid_wikipedia_link_spec. repeat split; reflexivity. Qed.

(** C10.  The bare prefix ['/wiki/'], with an empty title, is accepted for
    every host. *)
Theorem C10_empty_title_accepted (host : string) :
  _is_valid_wikipedia_link "/wiki/" host = true.
Proof. rewrite _is_valid_wikipedia_link_spec. reflexivity. Qed.

(** ** The rate limiter: C2 *)

(** C2, as stated, fails: after a wait the timestamp put into the window is
    not the time at which the request is admitted.  A finder with limit 1
    and one request half a second old waits, so the clock moves on, and
    records the time it read before the wait. *)
Lemma C2_recorded_time_is_stale :
  ∃ s', _rate_limit_request busy_finder = Return s' ∧
        (clock busy_finder < clock s')%Q ∧
        request_times s' = [0%Q; clock busy_finder] ∧
        ¬ (clock busy_finder == clock s')%Q.
Proof.
  eexists. split; [reflexivity|]. cbn.
  split; [reflexivity|]. split; [reflexivity|]. intros H. discriminate H.
Qed.

(** C2, amended.  On a sorted window and with a limit of at least 1, the
    admission step returns; the window it leaves holds exactly the entries
    at most one second old, followed by the time read on entry, before any
    wait; when the pruned window holds [rate_limit] entries or more, the
    clock has moved on by [1 - (now - oldest)], otherwise not at all.  So
    after a wait the recorded timestamp is earlier than the time of
    admission, by the length of the wait. *)
Theorem C2_admission s :
  (1 ≤ rate_limit s)%Z →
  StronglySorted Qle (request_times s) →
  let now := clock s in
  let window := List.filter (fresh now) (request_times s) in
  ∃ s', _rate_limit_request s = Return s' ∧
    request_times s' = window ++ [now] ∧
    (if (Z.of_nat (length window) >=? rate_limit s)%Z
     then ∃ oldest, head window = Some oldest ∧
            (clock s' == now + (1 - (now - oldest)))%Q
     else clock s' = now) ∧
    rate_limit s' = rate_limit s ∧ cache s' = cache s ∧
    semaphore s' = semaphore s ∧ network_log s' = network_log s.
Proof.
  intros Hlimit Hsorted now window. unfold _rate_limit_request.
  cbn [request_times with_request_times rate_limit].
  rewrite (prune_sorted _ _ Hsorted). fold now. fold window.
  pose proof (prune_head now (request_times s)) as Hhead.
  rewrite (prune_sorted _ _ Hsorted) in Hhead. fold window in Hhead.
  clearbody window.
  destruct (Z.of_nat (length window) >=? rate_limit s)%Z eqn:E.
  - destruct window as [|oldest rest].
    { apply Z.geb_le in E. simpl in E. lia. }
    specialize (Hhead _ _ eq_refl). clear E.
    destruct (Qlt_le_dec 0 (1 - (now - oldest))).
    + eexists. split; [reflexivity|].
      split; [reflexivity|]. split; [|repeat split; reflexivity].
      exists oldest. split; reflexivity.
    + eexists. split; [reflexivity|].
      split; [reflexivity|]. split; [|repeat split; reflexivity].
      exists oldest. split; [reflexivity|]. cbn [clock with_request_times].
      fold now. lra.
  - eexists. split; [reflexivity|]. repeat split; reflexivity.
Qed.

(** The amended C2 on the finder with limit 1 and one request half a
    second old. *)
Lemma C2_admission_witness :
  (1 ≤ rate_limit busy_finder)%Z ∧
  StronglySorted Qle (request_times busy_finder) ∧
  ∃ s', _rate_limit_request busy_finder = Return s' ∧
    request_times s' =
      List.filter (fresh (clock busy_finder)) (request_times busy_finder)
      ++ [clock busy_finder] ∧
    (if (Z.of_nat (length (List.filter (fresh (clock busy_finder))
                             (request_times busy_finder)))
         >=? rate_limit busy_finder)%Z
     then ∃ oldest,
            head (List.filter (fresh (clock busy_finder))
                    (request_times busy_finder)) = Some oldest ∧
            (clock s' == clock busy_finder
                         + (1 - (clock busy_finder - oldest)))%Q
     else clock s' = clock busy_finder) ∧
    rate_limit s' = rate_limit busy_finder ∧ cache s' = cache busy_finder ∧
    semaphore s' = semaphore busy_finder ∧
    network_log s' = network_log busy_finder.
Proof.
  split; [cbn; lia|]. split; [repeat constructor|].
  apply (C2_admission busy_finder); [cbn; lia | repeat constructor].
Defined.

(** ** The cached fetcher: C5 *)

(** C5.  Once a fetch of [u] has returned a body, every later fetch of [u],
    whatever was fetched in between, returns that body and leaves the finder
    as it is, the network log included.  A fetch of an uncached [u] on a
    ready finder makes one request; when the request fails the fetch returns
    [None] and the cache is unchanged, when it succeeds a second fetch of
    [u] makes no request. *)
Theorem C5_cache env u s :
  (∀ text s1 s2,
     get_page_content env u s = Return (Some text, s1) →
     fetched env s1 s2 →
     get_page_content env u s2 = Return (Some text, s2)) ∧
  (cache s !! u = None → (0 < semaphore s)%Z → (1 ≤ rate_limit s)%Z →
   ∃ s1, network_log s1 = network_log s ++ [u] ∧
     match body (session_get env (length (network_log s)) u) with
     | Some text =>
         get_page_content env u s = Return (Some text, s1) ∧
         get_page_content env u s1 = Return (Some text, s1)
     | None =>
         get_page_content env u s = Return (None, s1) ∧
         cache s1 = cache s
     end).
Proof.
  split.
  - intros text s1 s2 Hget Hlater. apply get_page_content_hit.
    eapply fetched_cache; [exact Hlater|].
    eapply get_page_content_cached, Hget.
  - intros Hmiss Hsem Hlimit.
    destruct (get_page_content_miss env u s Hmiss Hsem Hlimit)
      as (s1 & Hlog & _ & _ & H).
    exists s1. split; [exact Hlog|].
    destruct (body (session_get env (length (network_log s)) u)) as [text|].
    + destruct H as [Hget Hc]. split; [exact Hget|].
      apply get_page_content_hit. rewrite Hc. apply lookup_insert_eq.
    + exact H.
Qed.

(** C5 on the small site: page A is fetched once and then served from the
    cache; page C fails and leaves the cache as it was. *)
Lemma C5_cache_witness :
  (∃ s1, get_page_content example_site page_A new_finder
         = Return (Some "<html>A</html>"%string, s1) ∧
         get_page_content example_site page_A s1
         = Return (Some "<html>A</html>"%string, s1) ∧
         network_log s1 = [page_A]) ∧
  (∃ s1, get_page_content example_site page_C new_finder = Return (None, s1) ∧
         cache s1 = cache new_finder ∧ network_log s1 = [page_C]).
Proof.
  split.
  - destruct (proj2 (C5_cache example_site page_A new_finder))
      as (s1 & Hlog & Hget & Hagain); [reflexivity | cbn; lia | cbn; lia |].
    exists s1. auto.
  - destruct (proj2 (C5_cache example_site page_C new_finder))
      as (s1 & Hlog & Hget & Hcache); [reflexivity | cbn; lia | cbn; lia |].
    exists s1. auto.
Defined.

(** ** The URL normaliser: C7, C8 *)


(** Two more netlocs that [urlparse] refuses: a bracketed host that is no
    IP literal, and a host with a character whose NFKC form holds a
    ['/']. *)
Example bracketed_name_raises :
  normalize_url "http://[foo]/wiki/A" = Raise ValueError.
Proof. reflexivity. Qed.

Example nfkc_slash_raises :
  normalize_url "http://℀.example.org/wiki/Foo" = Raise ValueError.
Proof. reflexivity. Qed.

(** A bracketed IPv6 host with a port, and a path with [';'] before its
    last segment, are within the amended C7. *)
Example ipv6_host_normalizes :
  normalize_url "HTTP://[2001:db8::1]:8080/a;b/c/?q#f"
  = Return "http://[2001:db8::1]:8080/a;b/c"%string.
Proof. reflexivity. Qed.



(** C8, as stated, fails: a path whose last segment carries [;params] and a
    trailing slash loses the slash in the first normalisation and the
    parameters in the second. *)
Lemma C8_params_break_idempotence :
  normalize_url "https://en.example.org/wiki/Foo;bar/"
  = Return "https://en.example.org/wiki/Foo;bar"%string ∧
  normalize_url "https://en.example.org/wiki/Foo;bar"
  = Return "https://en.example.org/wiki/Foo"%string.
Proof. split; reflexivity. Qed.

(** Two more strings on which a second normalisation differs from the
    first: a relative reference, and a scheme followed by a bracket. *)
Example relative_reference_not_idempotent :
  normalize_url "/wiki/Foo" = Return ":///wiki/Foo"%string ∧
  normalize_url ":///wiki/Foo" = Return "://:///wiki/Foo"%string.
Proof. split; reflexivity. Qed.

Example bracket_not_idempotent :
  normalize_url "http:[" = Return "http://["%string ∧
  normalize_url "http://[" = Raise ValueError.
Proof. split; reflexivity. Qed.

(** A string with a scheme and no netloc, whose path holds a character
    that NFKC turns into [a/c]: the first normalisation puts the path in
    the place of the netloc, and the second one raises. *)
Example nfkc_not_idempotent :
  normalize_url "http:℀.example.org" = Return "http://℀.example.org"%string ∧
  normalize_url "http://℀.example.org" = Raise ValueError.
Proof. split; reflexivity. Qed.

(** C8, amended.  Let [urlparse] split a string into a non-empty scheme, a
    netloc and a path.  When the netloc is not empty and the path, stripped
    of its trailing slashes, has no [';'] in its last segment,
    [normalize_url] is idempotent on the string.  Whether the netloc is
    empty or not, let [authority] and [rest] be what stands before and from
    the first ['/'] of netloc and path put together and stripped of trailing
    slashes, which is where the normal form has its netloc and its path:
    when [authority] is a netloc that [urlparse] accepts and the last
    segment of [rest] has no [';'], [normalize_url] is idempotent on the
    string. *)
Theorem C8_normalize_idempotent url p :
  urlparse url = Return p →
  scheme p ≠ EmptyString →
  (netloc p ≠ EmptyString →
   has_char ";" (last_segment (rstrip "/" (path p))) = false →
   ∃ c, normalize_url url = Return c ∧ normalize_url c = Return c) ∧
  (∀ authority rest,
     _splitnetloc (rstrip "/" (netloc p +:+ path p)) = (authority, rest) →
     accepted_netloc authority = true →
     has_char ";" (last_segment rest) = false →
     ∃ c, normalize_url url = Return c ∧ normalize_url c = Return c).
Proof.
  intros Hp Hs.
  destruct (urlparse_components _ _ Hp) as (Hsch & Hn & Hpa).
  destruct (urlparse_netloc _ _ Hp) as (Hacc & Hroot).
  destruct Hsch as [?|(pre & Vpre & Epre)]; [contradiction|].
  assert (G : ∀ authority rest,
    _splitnetloc (rstrip "/" (netloc p +:+ path p)) = (authority, rest) →
    accepted_netloc authority = true →
    has_char ";" (last_segment rest) = false →
    ∃ c, normalize_url url = Return c ∧ normalize_url c = Return c).
  { intros authority rest Hsplit Ha Hsemi.
    exists (rstrip "/" (scheme p +:+ "://" +:+ netloc p +:+ path p)).
    split; [unfold normalize_url; rewrite Hp; reflexivity|].
    apply (normalize_url_fixed _ _ authority rest).
    - rewrite Epre. apply valid_scheme_lower, Vpre.
    - rewrite Epre. apply lower_idem.
    - apply none_of_app_intro.
      + revert Hn. apply sub_chars. reflexivity.
      + exact Hpa.
    - exact Hsplit.
    - exact Ha.
    - exact Hsemi. }
  split; [|exact G]. intros Hne Hsemi.
  apply (G (netloc p) (rstrip "/" (path p))).
  - apply authority_of_netloc; [exact Hne | | exact (Hroot Hne)].
    revert Hn. apply sub_chars. reflexivity.
  - exact Hacc.
  - exact Hsemi.
Qed.

(** The amended C8 on a URL with a trailing slash, a query and a
    fragment. *)
Lemma C8_normalize_idempotent_witness :
  urlparse "https://en.example.org/wiki/Foo/?x=1#y"
  = Return {| scheme := "https"; netloc := "en.example.org";
              path := "/wiki/Foo/"; params := EmptyString;
              query := "x=1"; fragment := "y" |} ∧
  ∃ c, normalize_url "https://en.example.org/wiki/Foo/?x=1#y" = Return c ∧
       normalize_url c = Return c.
Proof.
  split; [reflexivity|].
  apply (C8_normalize_idempotent "https://en.example.org/wiki/Foo/?x=1#y"
           {| scheme := "https"; netloc := "en.example.org";
              path := "/wiki/Foo/"; params := EmptyString;
              query := "x=1"; fragment := "y" |});
    [reflexivity | discriminate | discriminate | reflexivity].
Defined.

(** The amended C8 on strings without a netloc: an address, whose text
    becomes the netloc of the normal form, and a scheme alone. *)
Example no_netloc_idempotent :
  normalize_url "mailto:someone@example.org"
  = Return "mailto://someone@example.org"%string ∧
  normalize_url "mailto://someone@example.org"
  = Return "mailto://someone@example.org"%string ∧
  normalize_url "http:" = Return "http:"%string.
Proof. repeat split; reflexivity. Qed.

(** ** The search: C3, C4, C9 *)

(** C3, as stated, fails: the path returned for equal endpoints holds the
    normalised URL, not the URL that was passed. *)
Lemma C3_self_path_is_normalized :
  find_path example_site 0 "https://en.example.org/wiki/Foo/"
    "https://en.example.org/wiki/Foo/" 5 new_finder
  = Some (Return (Some ["https://en.example.org/wiki/Foo"%string], new_finder)) ∧
  ["https://en.example.org/wiki/Foo"%string]
  ≠ ["https://en.example.org/wiki/Foo/"%string].
Proof. split; [reflexivity | discriminate]. Qed.

(** C3, amended.  When [X] normalises to [c], [find_path(X, X, depth)]
    returns [[c]] for every depth bound, without a single turn of the loop
    and with the finder, its cache and its network log as they were. *)
Theorem C3_self_path env fuel X max_depth s c :
  normalize_url X = Return c →
  find_path env fuel X X max_depth s = Some (Return (Some [c], s)).
Proof.
  intros H. unfold find_path. rewrite H, String.eqb_refl. reflexivity.
Qed.

(** The amended C3 on a URL with a trailing slash, with a negative depth
    bound and no turn of the loop. *)
Lemma C3_self_path_witness :
  normalize_url "https://en.example.org/wiki/Foo/"
  = Return "https://en.example.org/wiki/Foo"%string ∧
  find_path example_site 0 "https://en.example.org/wiki/Foo/"
    "https://en.example.org/wiki/Foo/" (-3) new_finder
  = Some (Return (Some ["https://en.example.org/wiki/Foo"%string], new_finder)).
Proof.
  split; [reflexivity|]. apply C3_self_path. reflexivity.
Defined.

(** C4.  For a depth bound of at least 0 and a ready finder, whatever the
    network answers and whatever finite lists of links are extracted,
    [find_path] ends: some number of turns gives its result, which is a
    return or an exception, and more turns give the same.  At the end of
    every turn each entry of the queue is the seed [(start, [start])], put
    there before the loop, or has [len(path) <= max_depth]; counted in
    hops, [len(path) - 1], every entry is within [max_depth]. *)
Theorem C4_search_terminates env start_url target_url max_depth s :
  (0 ≤ max_depth)%Z →
  ready s →
  (∃ fuel r, r ≠ Block ∧
     ∀ fuel', fuel ≤ fuel' →
       find_path env fuel' start_url target_url max_depth s = Some r) ∧
  (∀ start target b n,
     normalize_url start_url = Return start →
     normalize_url target_url = Return target →
     visits env target max_depth (initial start s) b →
     n ∈ queue b →
     (n = (start, [start]) ∨ (Z.of_nat (length n.2) ≤ max_depth)%Z) ∧
     (Z.of_nat (length n.2) - 1 ≤ max_depth)%Z).
Proof.
  intros Hdepth Hready. split.
  - unfold find_path.
    pose proof (normalize_url_no_block start_url) as N1.
    pose proof (normalize_url_no_block target_url) as N2.
    destruct (normalize_url start_url) as [start|e|];
      [|exists 0, (Raise e); split; [discriminate | reflexivity]|contradiction].
    destruct (normalize_url target_url) as [target|e|];
      [|exists 0, (Raise e); split; [discriminate | reflexivity]|contradiction].
    destruct (String.eqb start target).
    + exists 0, (Return (Some [start], s)). split; [discriminate | reflexivity].
    + apply (halts_room env target max_depth
               (S (room max_depth (start, [start])))); [exact Hready|].
      repeat constructor.
  - intros start target b n _ _ Hvisits Hn.
    pose proof (visits_depth env target max_depth start s b Hvisits) as Hall.
    rewrite Forall_forall in Hall. destruct (Hall n Hn) as [->|Hle].
    + split; [left; reflexivity | cbn; lia].
    + split; [right; exact Hle | lia].
Qed.

(** Without a free slot in the semaphore the first fetch never returns,
    and the search with it. *)
Example zero_limit_blocks :
  find_path example_site 1 page_A page_D 5
    {| rate_limit := 0; cache := ∅; semaphore := 0; request_times := [];
       clock := 0; network_log := [] |}
  = Some Block.
Proof. reflexivity. Qed.

(** C4 on the small site, from A to D with the default depth bound. *)
Lemma C4_search_terminates_witness :
  (0 ≤ 5)%Z ∧ ready new_finder ∧
  (∃ fuel r, r ≠ Block ∧
     ∀ fuel', fuel ≤ fuel' →
       find_path example_site fuel' page_A page_D 5 new_finder = Some r) ∧
  (∀ start target b n,
     normalize_url page_A = Return start →
     normalize_url page_D = Return target →
     visits example_site target 5 (initial start new_finder) b →
     n ∈ queue b →
     (n = (start, [start]) ∨ (Z.of_nat (length n.2) ≤ 5)%Z) ∧
     (Z.of_nat (length n.2) - 1 ≤ 5)%Z).
Proof.
  split; [lia|]. split; [split; cbn; lia|].
  apply (C4_search_terminates example_site page_A page_D 5 new_finder);
    [lia | split; cbn; lia].
Defined.

(** C9.  A path returned by [find_path] starts with the normalised start
    URL, ends with the normalised target URL, has no URL twice, and is made
    of values of [normalize_url], none of which ends with a slash. *)
Theorem C9_returned_path env fuel start_url target_url max_depth s path s' :
  find_path env fuel start_url target_url max_depth s
  = Some (Return (Some path, s')) →
  ∃ start target,
    normalize_url start_url = Return start ∧
    normalize_url target_url = Return target ∧
    head path = Some start ∧ last path = Some target ∧
    NoDup path ∧ Forall canonical path ∧
    Forall (λ c, last_char c ≠ Some "/"%char) path.
Proof.
  unfold find_path.
  destruct (normalize_url start_url) as [start|e|] eqn:Hs; [|discriminate..].
  destruct (normalize_url target_url) as [target|e|] eqn:Ht; [|discriminate..].
  assert (G : find_path env fuel start_url target_url max_depth s
               = Some (Return (Some path, s')) → good_path target start path).
  { unfold find_path. rewrite Hs, Ht.
    destruct (String.eqb_spec start target) as [->|Hne].
    - intros [= <- <-]. split; [apply NoDup_singleton|].
      split; [reflexivity|]. split; [reflexivity|].
      constructor; [|constructor]. exists target_url. exact Ht.
    - apply bfs_loop_paths. cbn. constructor; [|constructor]. cbn.
      split; [apply NoDup_singleton|]. split; [|split; [|split]].
      + intros x Hx. apply list_elem_of_singleton in Hx as ->.
        apply elem_of_singleton. reflexivity.
      + intros Hx. apply list_elem_of_singleton in Hx. congruence.
      + reflexivity.
      + constructor; [|constructor]. exists start_url. exact Hs. }
  intros H. exists start, target. split; [reflexivity|]. split; [reflexivity|].
  unfold find_path in G. rewrite Hs, Ht in G.
  destruct (G H) as (G1 & G2 & G3 & G4). repeat split; try assumption.
  eapply Forall_impl; [exact G4|]. apply canonical_no_trailing_slash.
Qed.

(** C9 on the small site: the search from A to D returns A, B, D. *)
Lemma C9_returned_path_witness :
  ∃ s', find_path example_site 10 page_A page_D 5 new_finder
        = Some (Return (Some [page_A; page_B; page_D], s')) ∧
    ∃ start target,
      normalize_url page_A = Return start ∧
      normalize_url page_D = Return target ∧
      head [page_A; page_B; page_D] = Some start ∧
      last [page_A; page_B; page_D] = Some target ∧
      NoDup [page_A; page_B; page_D] ∧
      Forall canonical [page_A; page_B; page_D] ∧
      Forall (λ c, last_char c ≠ Some "/"%char) [page_A; page_B; page_D].
Proof.
  assert (H : ∃ s', find_path example_site 10 page_A page_D 5 new_finder
                    = Some (Return (Some [page_A; page_B; page_D], s')))
    by (eexists; vm_compute; reflexivity).
  destruct H as [s' H]. exists s'. split; [exact H|].
  exact (C9_returned_path _ _ _ _ _ _ _ _ H).
Defined.

(** * Further properties of the program *)

(** ** The link classifier *)

Lemma strip_prefix_self p r : strip_prefix p (p +:+ r) = Some r.
Proof.
  induction p as [|a p IH]; simpl; [reflexivity|].
  rewrite Ascii.eqb_refl. exact IH.
Qed.

Lemma startswith_app p r : startswith p (p +:+ r) = true.
Proof. unfold startswith. rewrite strip_prefix_self. reflexivity. Qed.

(** X1.  [_is_valid_wikipedia_link] accepts exactly the links that start
    with ['/wiki/'], hold no ['#'] and do not go on with an excluded
    prefix; [wiki_domain] has no part in the answer. *)
Theorem classifier_characterisation href wiki_domain :
  _is_valid_wikipedia_link href wiki_domain
  = startswith "/wiki/" href
    && negb (contains "#" href)
    && forallb (λ prefix, negb (startswith ("/wiki/" +:+ prefix) href))
         excluded_prefixes.
Proof.
  rewrite _is_valid_wikipedia_link_spec. unfold bare_wiki_path_ok.
  destruct (startswith "/wiki/" href); [|reflexivity].
  destruct (contains "#" href); [reflexivity|]. cbn [andb negb].
  generalize excluded_prefixes. intros l.
  induction l as [|p l IH]; [reflexivity|]. cbn [existsb forallb].
  destruct (startswith ("/wiki/" +:+ p) href); [reflexivity|exact IH].
Qed.

(** X2.  A link into an excluded namespace is rejected whatever follows the
    namespace prefix, for every host. *)
Theorem excluded_namespace_rejected prefix rest wiki_domain :
  prefix ∈ excluded_prefixes →
  _is_valid_wikipedia_link ("/wiki/" +:+ prefix +:+ rest) wiki_domain = false.
Proof.
  intros Hin. rewrite _is_valid_wikipedia_link_spec.
  change ("/wiki/" +:+ prefix +:+ rest) with ("/wiki/" +:+ (prefix +:+ rest)).
  rewrite startswith_app. unfold bare_wiki_path_ok. cbn [andb].
  destruct (contains "#" _); [reflexivity|].
  assert (E : existsb (λ p, startswith ("/wiki/" +:+ p)
                              ("/wiki/" +:+ (prefix +:+ rest)))
                excluded_prefixes = true).
  { apply existsb_exists. exists prefix. split.
    - apply list_elem_of_In. exact Hin.
    - rewrite <- append_assoc. apply startswith_app. }
  rewrite E. reflexivity.
Qed.

(** X2 on a localized talk namespace. *)
Lemma excluded_namespace_rejected_witness :
  ("Обсуждение:"%string ∈ excluded_prefixes) ∧
  _is_valid_wikipedia_link ("/wiki/" +:+ "Обсуждение:" +:+ "Foo")
    "ru.example.org" = false.
Proof.
  assert (H : "Обсуждение:"%string ∈ excluded_prefixes).
  { apply list_elem_of_In. vm_compute. tauto. }
  split; [exact H|]. exact (excluded_namespace_rejected _ _ _ H).
Defined.

(** ** The URL normaliser *)

Lemma lstrip_none_of bad f s : none_of bad s = true → none_of bad (lstrip f s) = true.
Proof.
  unfold none_of. induction s as [|a s IH]; cbn [lstrip]; [auto|].
  intros H. destruct (f a); [|exact H].
  cbn [all_chars] in H. apply andb_prop in H as [_ H]. auto.
Qed.

Lemma remove_chars_keeps_none_of bad f s :
  none_of bad s = true → none_of bad (remove_chars f s) = true.
Proof.
  unfold none_of. induction s as [|a s IH]; cbn [remove_chars all_chars]; [auto|].
  intros [Ha Hs]%andb_prop. destruct (f a); cbn [all_chars]; [auto|].
  rewrite Ha, (IH Hs). reflexivity.
Qed.

(** What decides the value of [normalize_url] on a well-formed absolute
    URL: the scheme up to case, the host, and the path up to trailing
    slashes. *)
Lemma rstrip_url_text S H P P' :
  rstrip "/" P = rstrip "/" P' →
  rstrip "/" (S +:+ "://" +:+ H +:+ P) = rstrip "/" (S +:+ "://" +:+ H +:+ P').
Proof.
  intros E.
  rewrite (rstrip_app _ S), (rstrip_app _ "://"), (rstrip_app _ H P).
  rewrite (rstrip_app _ S ("://" +:+ H +:+ P')), (rstrip_app _ "://" (H +:+ P')),
    (rstrip_app _ H P').
  rewrite E. reflexivity.
Qed.

(** X3.  Two well-formed absolute URLs with the same scheme up to case, the
    same host and the same path up to trailing slashes have the same
    normal form, whatever their queries and fragments. *)
Theorem normalize_url_same_article u u' :
  well_formed u = true → well_formed u' = true →
  lower (u_scheme u) = lower (u_scheme u') →
  u_host u = u_host u' →
  rstrip "/" (u_path u) = rstrip "/" (u_path u') →
  normalize_url (render u) = normalize_url (render u').
Proof.
  intros W W' ES EH EP.
  rewrite (normalize_url_render _ (well_formed_delimited _ W)),
    (normalize_url_render _ (well_formed_delimited _ W')).
  rewrite ES, EH. destruct (accepted_netloc (u_host u')); [|reflexivity].
  f_equal. apply rstrip_url_text, EP.
Qed.

(** X3 on two ways of writing the same article. *)
Lemma normalize_url_same_article_witness :
  render example_url
  = "HTTPS://en.example.org/wiki/Foo/?action=raw#History"%string ∧
  render example_url_again
  = "https://en.example.org/wiki/Foo///#See_also"%string ∧
  normalize_url (render example_url) = normalize_url (render example_url_again).
Proof.
  split; [reflexivity|]. split; [reflexivity|].
  apply (normalize_url_same_article example_url example_url_again);
    reflexivity.
Defined.

(** X4.  On a string of ASCII characters without square brackets
    [normalize_url] returns: none of the checks of [urlparse] that raise
    can fire. *)
Theorem normalize_url_returns url :
  isascii url = true → none_of "[]" url = true →
  ∃ c, normalize_url url = Return c.
Proof.
  intros Ha Hb. rewrite isascii_none_of in Ha.
  pose proof (none_of_union _ _ _ Ha Hb) as H. clear Ha Hb.
  pose proof (normalize_url_accepts url) as A. unfold netloc_of in A.
  apply (lstrip_none_of _ c0_control_or_space) in H.
  apply (remove_chars_keeps_none_of _ unsafe_url_byte) in H.
  pose proof (split_scheme_spec
                (remove_chars unsafe_url_byte (lstrip c0_control_or_space url)))
    as S1.
  destruct (split_scheme _) as [sch r1]. destruct S1 as [_ S1].
  apply S1 in H. clear S1.
  pose proof (split_netloc_spec r1) as S2.
  destruct (split_netloc r1) as [n r2]. destruct S2 as [_ S2].
  apply S2 in H as [Hn _]. cbn [fst] in A.
  rewrite accepted_netloc_plain in A.
  - destruct A as (c & E & _). eauto.
  - rewrite isascii_none_of. revert Hn. apply none_of_sub.
    intros c Hc. rewrite has_char_app, Hc. reflexivity.
  - revert Hn. apply none_of_sub.
    intros c Hc. rewrite has_char_app, Hc. apply orb_true_r.
Qed.

(** X4 on a [mailto:] address with leading spaces. *)
Lemma normalize_url_returns_witness :
  isascii "  Mailto:someone@example.org?subject=hi" = true ∧
  none_of "[]" "  Mailto:someone@example.org?subject=hi" = true ∧
  ∃ c, normalize_url "  Mailto:someone@example.org?subject=hi" = Return c.
Proof.
  split; [reflexivity|]. split; [reflexivity|].
  apply normalize_url_returns; reflexivity.
Defined.

(** ** The rate limiter *)

Lemma prune_sorted_fresh now l :
  StronglySorted Qle l → Forall (λ t, (now - t <= 1)%Q) (prune now l).
Proof.
  induction 1 as [|t l Hs IH Hall]; simpl; [constructor|].
  destruct (Qlt_le_dec 1 (now - t)) as [Old|New]; [exact IH|].
  constructor; [exact New|].
  eapply Forall_impl; [exact Hall|]. simpl. intros t' Ht'. lra.
Qed.

(** X5.  The window invariant.  On a window in time order whose entries
    are not after the clock, a returning admission step leaves a window in
    time order, not after the clock, and with every entry at most one
    second older than the time read on entry; the clock does not go back
    and moves on by at most one second. *)
Theorem limiter_keeps_window s s' :
  StronglySorted Qle (request_times s) →
  Forall (λ t, (t <= clock s)%Q) (request_times s) →
  _rate_limit_request s = Return s' →
  StronglySorted Qle (request_times s') ∧
  Forall (λ t, (t <= clock s')%Q) (request_times s') ∧
  Forall (λ t, (clock s - t <= 1)%Q) (request_times s') ∧
  (clock s <= clock s')%Q ∧ (clock s' <= clock s + 1)%Q.
Proof.
  intros Hs Hc Hret.
  destruct (_rate_limit_request_sorted _ _ Hs Hc Hret) as [S1 S2].
  split; [exact S1|]. split; [exact S2|].
  revert Hret. unfold _rate_limit_request.
  cbn [request_times with_request_times rate_limit].
  pose proof (prune_sorted_fresh (clock s) _ Hs) as Pf.
  pose proof (prune_Forall _ (clock s) _ Hc) as Pc.
  assert (F : Forall (λ t, (clock s - t <= 1)%Q)
                (prune (clock s) (request_times s) ++ [clock s])).
  { apply Forall_app. split; [exact Pf|]. repeat constructor. lra. }
  destruct (Z.of_nat (length (prune (clock s) (request_times s)))
            >=? rate_limit s)%Z.
  - destruct (prune (clock s) (request_times s)) as [|oldest rest] eqn:E;
      [discriminate|].
    inversion Pc; subst.
    destruct (Qlt_le_dec 0 (1 - (clock s - oldest)));
      intros [= <-]; cbn; (split; [exact F | split; lra]).
  - intros [= <-]; cbn. split; [exact F | split; lra].
Qed.

(** X5 on a finder with a full window: the step waits and admits. *)
Lemma limiter_keeps_window_witness :
  ∃ s', _rate_limit_request paced_finder = Return s' ∧
    request_times s' = [1 # 4; 1 # 2; 1]%Q ∧
    StronglySorted Qle (request_times s') ∧
    Forall (λ t, (t <= clock s')%Q) (request_times s') ∧
    Forall (λ t, (clock paced_finder - t <= 1)%Q) (request_times s') ∧
    (clock paced_finder <= clock s')%Q ∧
    (clock s' <= clock paced_finder + 1)%Q.
Proof.
  eexists. split; [reflexivity|]. split; [reflexivity|].
  apply (limiter_keeps_window paced_finder).
  - repeat constructor; cbn; lra.
  - repeat constructor; cbn; lra.
  - reflexivity.
Defined.

(** X6.  The admission step never blocks, and it raises exactly when the
    limit is not positive and nothing is left in the pruned window: then the
    length test passes and [request_times[0]] is read from an empty
    queue. *)
Theorem limiter_raises_iff s :
  _rate_limit_request s ≠ Block ∧
  (∀ e, _rate_limit_request s = Raise e ↔
        e = IndexError ∧ (rate_limit s ≤ 0)%Z ∧
        prune (clock s) (request_times s) = []).
Proof.
  unfold _rate_limit_request.
  cbn [request_times with_request_times rate_limit].
  destruct (Z.geb_spec (Z.of_nat (length (prune (clock s) (request_times s))))
              (rate_limit s)) as [Hge|Hlt].
  - destruct (prune (clock s) (request_times s)) as [|oldest rest].
    + split; [discriminate|]. intros e. cbn in *. split.
      * intros [= <-]. split; [reflexivity|]. split; [lia | reflexivity].
      * intros (-> & _ & _). reflexivity.
    + destruct (Qlt_le_dec 0 (1 - (clock s - oldest)));
        (split; [discriminate|]); intros e;
        (split; [discriminate | intros (_ & _ & [=])]).
  - split; [discriminate|]. intros e. split; [discriminate|].
    intros (_ & Hle & E). rewrite E in Hlt. cbn in Hlt. lia.
Qed.

(** ** The cached fetcher *)

Lemma _rate_limit_request_no_block s : _rate_limit_request s ≠ Block.
Proof.
  unfold _rate_limit_request.
  cbn [request_times with_request_times rate_limit].
  destruct (Z.of_nat (length (prune (clock s) (request_times s)))
            >=? rate_limit s)%Z; [|discriminate].
  destruct (prune (clock s) (request_times s)) as [|oldest rest];
    [discriminate|].
  destruct (Qlt_le_dec 0 (1 - (clock s - oldest))); discriminate.
Qed.

(** A returning fetch is a hit in the cache, which changes nothing, or a
    miss, which makes one request for the URL asked and stores the body it
    gets, if any. *)
Lemma get_page_content_inv env url s content s' :
  get_page_content env url s = Return (content, s') →
  (cache s !! url = content ∧ is_Some content ∧ s' = s) ∨
  (cache s !! url = None ∧
   network_log s' = network_log s ++ [url] ∧
   content = body (session_get env (length (network_log s)) url) ∧
   cache s' = match content with
              | Some text => <[url := text]> (cache s)
              | None => cache s
              end ∧
   semaphore s' = semaphore s ∧ rate_limit s' = rate_limit s).
Proof.
  unfold get_page_content. destruct (cache s !! url) as [text|] eqn:Hc.
  - intros [= <- <-]. left. eauto.
  - destruct (Z.leb_spec (semaphore s) 0); [discriminate|].
    destruct (_rate_limit_request (with_semaphore (semaphore s - 1) s))
      as [s1| |] eqn:R; [|discriminate..].
    apply _rate_limit_request_frame in R as (F1 & F2 & F3 & F4).
    cbn [mbind outcome_bind]. cbv zeta. cbn in F1, F2, F3, F4.
    rewrite F4. intros Hret. right. split; [reflexivity|].
    destruct (body (session_get env (length (network_log s)) url)) as [text|];
      injection Hret as <- <-; cbn; rewrite ?F1, ?F2, ?F3, ?F4;
      repeat split; lia.
Qed.

(** X7.  A fetch blocks exactly when the page is not cached and the
    semaphore has no free slot; a cached page is served whatever the
    semaphore. *)
Theorem fetch_blocks_iff env url s :
  get_page_content env url s = Block ↔
  cache s !! url = None ∧ (semaphore s ≤ 0)%Z.
Proof.
  unfold get_page_content. destruct (cache s !! url) as [text|].
  - split; [discriminate | intros [[=] _]].
  - destruct (Z.leb_spec (semaphore s) 0) as [Hle|Hgt].
    + split; auto.
    + split; [|intros [_ H]; lia].
      pose proof (_rate_limit_request_no_block
                    (with_semaphore (semaphore s - 1) s)) as N.
      destruct (_rate_limit_request _) as [s1| |]; [|discriminate|contradiction].
      cbn [mbind outcome_bind]. cbv zeta.
      destruct (body _); discriminate.
Qed.

(** X8.  A returning fetch touches the cache at the URL asked only, and
    only to fill an empty place with the body it returns; it sends to the
    network at most the URL asked, and only when that URL is not cached; it
    leaves the limit and the semaphore counter as they were. *)
Theorem fetch_footprint env url s content s' :
  get_page_content env url s = Return (content, s') →
  (∀ k, cache s' !! k = cache s !! k ∨
        (k = url ∧ cache s !! url = None ∧ cache s' !! url = content)) ∧
  (network_log s' = network_log s ∨
   (network_log s' = network_log s ++ [url] ∧ cache s !! url = None)) ∧
  semaphore s' = semaphore s ∧ rate_limit s' = rate_limit s.
Proof.
  intros H. apply get_page_content_inv in H
    as [(Hc & _ & ->)|(Hc & Hlog & Hbody & Hcache & Hsem & Hlim)].
  - repeat split; auto.
  - split; [|repeat split; auto]. intros k. rewrite Hcache.
    destruct content as [text|]; [|left; reflexivity].
    destruct (decide (url = k)) as [<-|Hne].
    + right. rewrite lookup_insert_eq. auto.
    + left. apply lookup_insert_ne, Hne.
Qed.

(** X8 on the first fetch of page A. *)
Lemma fetch_footprint_witness :
  ∃ s', get_page_content example_site page_A new_finder
        = Return (Some "<html>A</html>"%string, s') ∧
    (∀ k, cache s' !! k = cache new_finder !! k ∨
          (k = page_A ∧ cache new_finder !! page_A = None ∧
           cache s' !! page_A = Some "<html>A</html>"%string)) ∧
    (network_log s' = network_log new_finder ∨
     (network_log s' = network_log new_finder ++ [page_A] ∧
      cache new_finder !! page_A = None)) ∧
    semaphore s' = semaphore new_finder ∧
    rate_limit s' = rate_limit new_finder.
Proof.
  assert (H : ∃ s', get_page_content example_site page_A new_finder
                    = Return (Some "<html>A</html>"%string, s'))
    by (eexists; vm_compute; reflexivity).
  destruct H as [s' H]. exists s'. split; [exact H|].
  exact (fetch_footprint _ _ _ _ _ H).
Defined.

(** X9.  A failed fetch is not remembered: after it the URL is still
    absent from the cache and the finder is still ready, so the next fetch
    of the same URL goes to the network again. *)
Theorem failed_fetch_is_retried env url s s1 :
  ready s →
  get_page_content env url s = Return (None, s1) →
  cache s1 !! url = None ∧ ready s1 ∧
  ∃ content s2,
    get_page_content env url s1 = Return (content, s2) ∧
    network_log s2 = network_log s ++ [url; url].
Proof.
  intros [Hsem Hlim] H. apply get_page_content_inv in H
    as [(_ & [? [=]] & _)|(Hc & Hlog & Hbody & Hcache & Hsem1 & Hlim1)].
  assert (Hc1 : cache s1 !! url = None) by (rewrite Hcache; exact Hc).
  assert (R1 : ready s1) by (split; lia).
  split; [exact Hc1|]. split; [exact R1|].
  destruct (get_page_content_returns env url s1 R1) as (content & s2 & Hget & _).
  exists content, s2. split; [exact Hget|].
  apply get_page_content_inv in Hget
    as [(Hhit & [? ->] & _)|(_ & Hlog2 & _)]; [congruence|].
  rewrite Hlog2, Hlog, <- app_assoc. reflexivity.
Qed.

(** X9 on page C, which cannot be fetched. *)
Lemma failed_fetch_is_retried_witness :
  ready new_finder ∧
  ∃ s1, get_page_content example_site page_C new_finder = Return (None, s1) ∧
    cache s1 !! page_C = None ∧ ready s1 ∧
    ∃ content s2,
      get_page_content example_site page_C s1 = Return (content, s2) ∧
      network_log s2 = network_log new_finder ++ [page_C; page_C].
Proof.
  assert (R : ready new_finder) by (split; cbn; lia).
  assert (H : ∃ s1, get_page_content example_site page_C new_finder
                    = Return (None, s1))
    by (eexists; vm_compute; reflexivity).
  destruct H as [s1 H]. split; [exact R|]. exists s1. split; [exact H|].
  exact (failed_fetch_is_retried _ _ _ _ R H).
Defined.

(** X23.  [WikipediaPathFinder(n)] is refused with [ValueError] exactly
    for a negative [n]; the finder it gives is ready exactly for [n >= 1];
    and with [n = 0], and only then, every fetch of the new finder
    blocks. *)
Theorem created_finder limit now :
  (__init__ limit now = Raise ValueError ↔ (limit < 0)%Z) ∧
  ∀ s, __init__ limit now = Return s →
    (ready s ↔ (1 ≤ limit)%Z) ∧
    ∀ env url, get_page_content env url s = Block ↔ limit = 0%Z.
Proof.
  unfold __init__. destruct (Z.ltb_spec limit 0) as [Hneg|Hpos].
  - split; [tauto | discriminate].
  - split; [split; [discriminate | lia]|]. intros s [= <-].
    split; [unfold ready; cbn; lia|]. intros env url.
    unfold get_page_content. cbn [cache semaphore]. rewrite lookup_empty.
    destruct (Z.leb_spec limit 0) as [Hle|Hgt]; [split; [lia | auto]|].
    split; [|lia].
    match goal with
    | |- context [_rate_limit_request ?t] =>
        pose proof (_rate_limit_request_no_block t) as N;
        destruct (_rate_limit_request t) as [s1| |]
    end; [|discriminate|contradiction].
    cbn [mbind outcome_bind]. cbv zeta. destruct (body _); discriminate.
Qed.

(** ** The search *)

Lemma links_post_skip target_url max_depth path link links v q found v' q' :
  links_post target_url max_depth path links v q found v' q' →
  links_post target_url max_depth path (link :: links) v q found v' q'.
Proof.
  intros (added & Hq & Hx & Hnd & Hadd & Hf). exists added.
  split; [exact Hq|]. split; [exact Hx|]. split; [exact Hnd|]. split.
  - intros c Hc. destruct (Hadd c Hc) as (H1 & H2 & H3 & l0 & Hl0 & E).
    split; [exact H1|]. split; [exact H2|]. split; [exact H3|].
    exists l0. split; [right; exact Hl0 | exact E].
  - intros p Hp. destruct (Hf p Hp) as (H1 & l0 & Hl0 & E).
    split; [exact H1|]. exists l0. split; [right; exact Hl0 | exact E].
Qed.

Lemma links_post_stop target_url max_depth path links v q found :
  (∀ p, found = Some p →
     p = path ++ [target_url] ∧
     ∃ link, link ∈ links ∧ normalize_url link = Return target_url) →
  links_post target_url max_depth path links v q found v q.
Proof.
  intros Hf. exists []. cbn. rewrite app_nil_r.
  split; [reflexivity|]. split; [intros x; rewrite elem_of_nil; tauto|].
  split; [constructor|]. split; [intros c Hc; inversion Hc | exact Hf].
Qed.

Lemma for_links_inv target_url max_depth path links v q found v' q' :
  for_links target_url max_depth path links v q = Return (found, v', q') →
  links_post target_url max_depth path links v q found v' q'.
Proof.
  revert v q. induction links as [|link links IH]; intros v q; simpl.
  - intros [= <- <- <-]. apply links_post_stop. discriminate.
  - destruct (normalize_url link) as [c| |] eqn:Hc; [|discriminate..].
    cbn [mbind outcome_bind].
    destruct (String.eqb_spec c target_url) as [->|Hne].
    { intros [= <- <- <-]. apply links_post_stop.
      intros p [= <-]. split; [reflexivity|].
      exists link. split; [left | exact Hc]. }
    destruct (bool_decide (c ∉ v)) eqn:Hv; cbn [andb];
      [|intros Hrec; apply links_post_skip, IH, Hrec].
    apply bool_decide_eq_true in Hv.
    destruct (Z.ltb_spec (Z.of_nat (length path)) max_depth) as [Hlt|Hge];
      [|intros Hrec; apply links_post_skip, IH, Hrec].
    intros Hrec. destruct (IH _ _ Hrec) as (added & Hq & Hx & Hnd & Hadd & Hf).
    exists (c :: added). split; [|split; [|split; [|split]]].
    + rewrite Hq, <- app_assoc. reflexivity.
    + intros x. rewrite Hx, elem_of_union, elem_of_singleton, elem_of_cons.
      tauto.
    + constructor; [|exact Hnd]. intros Hin.
      destruct (Hadd c Hin) as (Hnot & _). apply Hnot.
      apply elem_of_union_l, elem_of_singleton. reflexivity.
    + intros c0 [->|Hin]%elem_of_cons.
      * split; [exact Hv|]. split; [exact Hne|]. split; [exact Hlt|].
        exists link. split; [left | exact Hc].
      * destruct (Hadd c0 Hin) as (Hnot & Hnt & Hl & l0 & Hl0 & E).
        split; [|split; [exact Hnt|split; [exact Hl|]]].
        -- intros Hv0. apply Hnot, elem_of_union_r, Hv0.
        -- exists l0. split; [right; exact Hl0 | exact E].
    + intros p Hp. destruct (Hf p Hp) as (-> & l0 & Hl0 & E).
      split; [reflexivity|]. exists l0. split; [right; exact Hl0 | exact E].
Qed.

(** What a returning turn has done: it has taken the head off the queue
    and skipped it as too deep, or fetched it and, when there was no
    content, gone on, or else run the [for] loop over its links. *)
Lemma turn_inv env target_url max_depth b found b' :
  turn env target_url max_depth b = Some (Return (found, b')) →
  ∃ u path rest,
    queue b = (u, path) :: rest ∧
    (((Z.of_nat (length path) > max_depth)%Z ∧ found = None ∧
      visited b' = visited b ∧ queue b' = rest ∧ finder b' = finder b) ∨
     ((Z.of_nat (length path) ≤ max_depth)%Z ∧
      ∃ content,
        get_page_content env u (finder b) = Return (content, finder b') ∧
        ((falsy content = true ∧ found = None ∧
          visited b' = visited b ∧ queue b' = rest) ∨
         (∃ html, content = Some html ∧ html ≠ EmptyString ∧
            for_links target_url max_depth path
              (extract_wikipedia_links env html u) (visited b) rest
            = Return (found, visited b', queue b'))))).
Proof.
  unfold turn. destruct (queue b) as [|[u path] rest]; [discriminate|].
  intros [= Ho]. exists u, path, rest. split; [reflexivity|].
  destruct (Z.gtb_spec (Z.of_nat (length path)) max_depth) as [Hgt|Hle].
  { injection Ho as <- <-. left. cbn. repeat split; auto. lia. }
  right. split; [exact Hle|].
  destruct (get_page_content env u (finder b)) as [[content s]|e|];
    [|discriminate..].
  cbn [mbind outcome_bind] in Ho. exists content.
  destruct (falsy content) eqn:Hfalsy.
  { injection Ho as <- <-. cbn. split; [reflexivity|]. left. auto. }
  cbv zeta in Ho.
  match type of Ho with
  | context [for_links ?t ?d ?p ?l ?w ?q] =>
      destruct (for_links t d p l w q) as [[[found0 v'] q']|e|] eqn:Hfor
  end; [|discriminate..].
  cbn [mbind outcome_bind] in Ho. injection Ho as <- <-. cbn.
  split; [reflexivity|]. right.
  destruct content as [[|a html]|]; try discriminate.
  exists (String a html). split; [reflexivity|]. split; [discriminate|].
  exact Hfor.
Qed.

(** *** Links between pages *)

Lemma chain_snoc env s0 p u c :
  chain env s0 p → last p = Some u → linked env s0 u c →
  chain env s0 (p ++ [c]).
Proof.
  induction p as [|x p IH]; [discriminate|].
  destruct p as [|y p].
  - intros _ [= ->] L. cbn. auto.
  - intros [Hxy Hc] Hl L. cbn [app chain]. split; [exact Hxy|].
    apply IH; assumption.
Qed.

Lemma fst_extended (path added : list string) :
  (map (λ c : string, (c, path ++ [c])) added).*1 = added.
Proof. induction added as [|c l IH]; cbn; [reflexivity|]. f_equal. exact IH. Qed.

Section Trace.

Context (env : environment) (target_url : string) (max_depth : Z).
Context (s0 : state) (start_url : string).

(** What holds of the loop variables at the end of every turn. *)
Definition search_inv (b : search) : Prop :=
  (∀ u p, (u, p) ∈ queue b →
     last p = Some u ∧ chain env s0 p ∧
     (p = [start_url] ∨ (Z.of_nat (length p) ≤ max_depth)%Z) ∧
     u ∈ visited b) ∧
  NoDup (queue b).*1 ∧
  (target_url ∉ visited b) ∧
  (∃ new, network_log (finder b) = network_log s0 ++ new ∧ NoDup new ∧
     ∀ u, u ∈ new →
       u ∈ visited b ∧ (u ∉ (queue b).*1) ∧ cache s0 !! u = None ∧
       (is_Some (cache (finder b) !! u) ∨
        ∃ n, body (session_get env n u) = None)) ∧
  (∀ u html, cache (finder b) !! u = Some html → page_html env s0 u html) ∧
  (∀ u html, cache s0 !! u = Some html → cache (finder b) !! u = Some html) ∧
  semaphore (finder b) = semaphore s0 ∧ rate_limit (finder b) = rate_limit s0.

(** What holds of a returned path. *)
Definition found_ok (p : list string) : Prop :=
  chain env s0 p ∧ last p = Some target_url ∧
  (Z.of_nat (length p) ≤ max_depth + 1)%Z.

Lemma search_inv_initial :
  start_url ≠ target_url → search_inv (initial start_url s0).
Proof.
  intros Hne. unfold search_inv, initial. cbn.
  split; [|split; [|split; [|split; [|split; [|split]]]]].
  - intros u p Hin. apply list_elem_of_singleton in Hin as [= -> ->].
    split; [reflexivity|]. split; [exact I|]. split; [left; reflexivity|].
    apply elem_of_singleton. reflexivity.
  - apply NoDup_singleton.
  - intros Hin. apply elem_of_singleton in Hin. congruence.
  - exists []. rewrite app_nil_r. split; [reflexivity|].
    split; [constructor|]. intros u Hu. inversion Hu.
  - intros u html H. left. exact H.
  - auto.
  - auto.
Qed.

(** Dropping the head of the queue. *)
Lemma search_inv_pop v n rest f :
  search_inv {| visited := v; queue := n :: rest; finder := f |} →
  search_inv {| visited := v; queue := rest; finder := f |}.
Proof.
  intros (I1 & I2 & I3 & (new & Hlog & Hnd & Hnew) & I5 & I6 & I7 & I8).
  cbn in *. split; [|split; [|split; [|split; [|split; [|split]]]]]; auto.
  - intros u p Hin. apply I1. right. exact Hin.
  - inversion I2; assumption.
  - exists new. split; [exact Hlog|]. split; [exact Hnd|].
    intros u Hu. destruct (Hnew u Hu) as (H1 & H2 & H3).
    split; [exact H1|]. split; [|exact H3].
    intros Hin. apply H2. right. exact Hin.
Qed.

(** Fetching the head of the queue. *)
Lemma search_inv_fetch v u path rest f content f' :
  search_inv {| visited := v; queue := (u, path) :: rest; finder := f |} →
  get_page_content env u f = Return (content, f') →
  search_inv {| visited := v; queue := rest; finder := f' |} ∧
  ∀ html, content = Some html → page_html env s0 u html.
Proof.
  intros Hinv Hget. pose proof (search_inv_pop _ _ _ _ Hinv) as Hpop.
  destruct Hinv as (I1 & I2 & _ & (new & Hlog & Hnd & Hnew) & I5 & I6 & _).
  destruct Hpop as (P1 & P2 & P3 & _ & _ & _ & P7 & P8). cbn in *.
  apply get_page_content_inv in Hget
    as [(Hc & _ & ->)|(Hc & Hlog' & Hbody & Hcache & Hsem & Hlim)].
  - split.
    + split; [|split; [|split; [|split; [|split; [|split]]]]]; auto.
      exists new. split; [exact Hlog|]. split; [exact Hnd|].
      intros x Hx. destruct (Hnew x Hx) as (H1 & H2 & H3).
      split; [exact H1|]. split; [|exact H3].
      intros Hin. apply H2. right. exact Hin.
    + intros html ->. apply I5. exact Hc.
  - assert (Hu : u ∈ v) by (apply (I1 u path); left).
    assert (Hfresh : u ∉ new).
    { intros Hin. destruct (Hnew u Hin) as (_ & H2 & _). apply H2. left. }
    split.
    + split; [exact P1|]. split; [exact P2|]. split; [exact P3|].
      split; [|split; [|split; [|split]]]; cbn.
      * exists (new ++ [u]).
        split; [rewrite Hlog', Hlog, app_assoc; reflexivity|].
        split.
        { apply NoDup_app. split; [exact Hnd|]. split; [|apply NoDup_singleton].
          intros x Hx Hx'. apply list_elem_of_singleton in Hx' as ->.
          contradiction. }
        intros x [Hx|Hx]%elem_of_app.
        -- destruct (Hnew x Hx) as (H1 & H2 & H3 & H4).
           split; [exact H1|].
           split; [intros Hin; apply H2; right; exact Hin|].
           split; [exact H3|].
           destruct H4 as [[h Hh]|H4]; [left | right; exact H4].
           rewrite Hcache. destruct content as [text|]; [|eauto].
           destruct (decide (u = x)) as [<-|Hne]; [contradiction|].
           rewrite lookup_insert_ne by exact Hne. eauto.
        -- apply list_elem_of_singleton in Hx as ->.
           split; [exact Hu|]. split; [inversion I2; assumption|]. split.
           ++ destruct (cache s0 !! u) as [h|] eqn:E; [|reflexivity].
              apply I6 in E. congruence.
           ++ rewrite Hcache. destruct content as [text|].
              ** left. rewrite lookup_insert_eq. eauto.
              ** right. eauto.
      * intros k html. rewrite Hcache. destruct content as [text|]; [|apply I5].
        destruct (decide (u = k)) as [<-|Hne].
        -- rewrite lookup_insert_eq. intros [= <-]. right. eauto.
        -- rewrite lookup_insert_ne by exact Hne. apply I5.
      * intros k html Hk. rewrite Hcache.
        destruct content as [text|]; [|apply I6, Hk].
        destruct (decide (u = k)) as [<-|Hne].
        -- apply I6 in Hk. congruence.
        -- rewrite lookup_insert_ne by exact Hne. apply I6, Hk.
      * congruence.
      * congruence.
    + intros html ->. right. eauto.
Qed.

(** Running the [for] loop over the links of the head of the queue. *)
Lemma search_inv_links v u path rest f html found v' q' :
  search_inv {| visited := v; queue := rest; finder := f |} →
  last path = Some u → chain env s0 path → u ∈ v →
  (Z.of_nat (length path) ≤ max_depth)%Z →
  page_html env s0 u html → html ≠ EmptyString →
  links_post target_url max_depth path (extract_wikipedia_links env html u)
    v rest found v' q' →
  search_inv {| visited := v'; queue := q'; finder := f |} ∧
  ∀ p, found = Some p → found_ok p.
Proof.
  intros (I1 & I2 & I3 & (new & Hlog & Hnd & Hnew) & I5 & I6 & I7 & I8)
    Hlast Hchain Hu Hdepth Hpage Hhtml
    (added & -> & Hx & Hadd_nd & Hadd & Hf).
  cbn in *.
  assert (Hlinked : ∀ c link,
    link ∈ extract_wikipedia_links env html u →
    normalize_url link = Return c → linked env s0 u c).
  { intros c link Hin E. exists html, link. auto. }
  split.
  - split; [|split; [|split; [|split; [|split; [|split]]]]]; auto; cbn.
    + intros x p [Hin|Hin]%elem_of_app.
      * destruct (I1 x p Hin) as (H1 & H2 & H3 & H4).
        split; [exact H1|]. split; [exact H2|]. split; [exact H3|].
        apply Hx. right. exact H4.
      * apply list_elem_of_fmap in Hin as (c & [= -> ->] & Hc).
        destruct (Hadd c Hc) as (_ & _ & Hlt & link & Hlink & E).
        split; [apply last_snoc|]. split.
        { eapply chain_snoc; eauto. }
        split; [right; rewrite length_app; cbn; lia|].
        apply Hx. left. exact Hc.
    + rewrite fmap_app, fst_extended. apply NoDup_app.
      split; [exact I2|]. split; [|exact Hadd_nd].
      intros x Hx1 Hx2. destruct (Hadd x Hx2) as (Hnot & _). apply Hnot.
      apply list_elem_of_fmap in Hx1 as ([x' p] & -> & Hin).
      apply (I1 x' p Hin).
    + intros Hin. apply Hx in Hin as [Hin|Hin]; [|contradiction].
      destruct (Hadd _ Hin) as (_ & Hne & _). congruence.
    + exists new. split; [exact Hlog|]. split; [exact Hnd|].
      intros x Hxn. destruct (Hnew x Hxn) as (H1 & H2 & H3).
      split; [apply Hx; right; exact H1|]. split; [|exact H3].
      rewrite fmap_app, fst_extended. intros [Hin|Hin]%elem_of_app;
        [contradiction|].
      destruct (Hadd x Hin) as (Hnot & _). contradiction.
  - intros p Hp. destruct (Hf p Hp) as (-> & link & Hlink & E).
    split; [eapply chain_snoc; eauto|]. split; [apply last_snoc|].
    rewrite length_app. cbn. lia.
Qed.

(** A returning turn keeps what holds, and returns a good path. *)
Lemma search_inv_turn b found b' :
  search_inv b →
  turn env target_url max_depth b = Some (Return (found, b')) →
  search_inv b' ∧ ∀ p, found = Some p → found_ok p.
Proof.
  intros Hinv Hturn. destruct b as [v q f]. destruct b' as [v' q' f'].
  apply turn_inv in Hturn as (u & path & rest & Hq & Hcase). cbn in *. subst q.
  destruct Hcase as [(_ & -> & -> & -> & ->)|(Hle & content & Hget & Hcase)].
  - split; [eapply search_inv_pop; exact Hinv | discriminate].
  - destruct (search_inv_fetch _ _ _ _ _ _ _ Hinv Hget) as [Hinv' Hpage].
    destruct Hcase as [(_ & -> & -> & ->)|(html & -> & Hhtml & Hfor)].
    + split; [exact Hinv' | discriminate].
    + destruct Hinv as (I1 & _). cbn in I1.
      destruct (I1 u path) as (H1 & H2 & _ & H4); [left|].
      eapply search_inv_links; eauto.
      apply for_links_inv. exact Hfor.
Qed.

Lemma search_inv_loop fuel b r s :
  search_inv b →
  bfs_loop env target_url max_depth fuel b = Some (Return (r, s)) →
  (∃ b', search_inv b' ∧ finder b' = s) ∧ ∀ p, r = Some p → found_ok p.
Proof.
  revert b. induction fuel as [|fuel IH]; intros b Hinv; simpl;
    [discriminate|].
  destruct (turn env target_url max_depth b) as [[[[found|] b']|e|]|] eqn:Hturn;
    try discriminate.
  - intros [= <- <-].
    destruct (search_inv_turn _ _ _ Hinv Hturn) as [Hinv' Hf]. eauto.
  - apply IH. eapply search_inv_turn; eauto.
  - intros [= <- <-]. split; [eauto | discriminate].
Qed.

End Trace.

(** What a returning search has done: the endpoints were the same after
    normalisation and nothing was touched, or the loop ran from the seed. *)
Lemma find_path_inv env fuel start_url target_url max_depth s r s' :
  find_path env fuel start_url target_url max_depth s = Some (Return (r, s')) →
  ∃ start target,
    normalize_url start_url = Return start ∧
    normalize_url target_url = Return target ∧
    ((start = target ∧ r = Some [start] ∧ s' = s) ∨
     (start ≠ target ∧
      (∃ b', search_inv env target max_depth s start b' ∧ finder b' = s') ∧
      ∀ p, r = Some p → found_ok env target max_depth s p)).
Proof.
  unfold find_path.
  destruct (normalize_url start_url) as [start|e|]; [|discriminate..].
  destruct (normalize_url target_url) as [target|e|]; [|discriminate..].
  exists start, target. split; [reflexivity|]. split; [reflexivity|].
  destruct (String.eqb_spec start target) as [->|Hne].
  - injection H as <- <-. left. auto.
  - right. split; [exact Hne|].
    eapply search_inv_loop; [|exact H]. apply search_inv_initial, Hne.
Qed.

(** X10.  A returned path is a chain of links: each of its pages had a
    non-empty body, cached at the start or given by the network, with a
    link that normalises to the next page of the path. *)
Theorem found_path_follows_links
    env fuel start_url target_url max_depth s path s' :
  find_path env fuel start_url target_url max_depth s
  = Some (Return (Some path, s')) →
  chain env s path.
Proof.
  intros H. apply find_path_inv in H
    as (start & target & _ & _ & [(_ & [= ->] & _)|(_ & _ & Hf)]).
  - exact I.
  - apply (Hf path eq_refl).
Qed.

(** X10 on the search from A to D. *)
Lemma found_path_follows_links_witness :
  ∃ s', find_path example_site 10 page_A page_D 5 new_finder
        = Some (Return (Some [page_A; page_B; page_D], s')) ∧
    chain example_site new_finder [page_A; page_B; page_D].
Proof.
  assert (H : ∃ s', find_path example_site 10 page_A page_D 5 new_finder
                    = Some (Return (Some [page_A; page_B; page_D], s')))
    by (eexists; vm_compute; reflexivity).
  destruct H as [s' H]. exists s'. split; [exact H|].
  exact (found_path_follows_links _ _ _ _ _ _ _ _ H).
Defined.

(** X11.  A returned path has at most [max_depth] hops, and none when the
    depth bound is not positive: its length is at most
    [max(0, max_depth) + 1]. *)
Theorem found_path_within_depth
    env fuel start_url target_url max_depth s path s' :
  find_path env fuel start_url target_url max_depth s
  = Some (Return (Some path, s')) →
  (1 ≤ length path) ∧
  (Z.of_nat (length path) ≤ Z.max 0 max_depth + 1)%Z.
Proof.
  intros H. apply find_path_inv in H
    as (start & target & _ & _ & [(_ & [= ->] & _)|(_ & _ & Hf)]).
  - cbn. lia.
  - destruct (Hf path eq_refl) as (_ & Hlast & Hlen).
    destruct path; [discriminate|]. cbn in *. lia.
Qed.

(** X11 on the search from A to D with depth bound 2. *)
Lemma found_path_within_depth_witness :
  ∃ s', find_path example_site 10 page_A page_D 2 new_finder
        = Some (Return (Some [page_A; page_B; page_D], s')) ∧
    (1 ≤ length [page_A; page_B; page_D]) ∧
    (Z.of_nat (length [page_A; page_B; page_D]) ≤ Z.max 0 2 + 1)%Z.
Proof.
  assert (H : ∃ s', find_path example_site 10 page_A page_D 2 new_finder
                    = Some (Return (Some [page_A; page_B; page_D], s')))
    by (eexists; vm_compute; reflexivity).
  destruct H as [s' H]. exists s'. split; [exact H|].
  exact (found_path_within_depth _ _ _ _ _ _ _ _ H).
Defined.



(** X13.  A returning search keeps every entry the cache had, adds only
    bodies the network gave for the URL they are stored under, and leaves
    the limit and the semaphore counter as they were. *)
Theorem search_keeps_finder env fuel start_url target_url max_depth s r s' :
  find_path env fuel start_url target_url max_depth s = Some (Return (r, s')) →
  (∀ u html, cache s !! u = Some html → cache s' !! u = Some html) ∧
  (∀ u html, cache s' !! u = Some html →
     cache s !! u = Some html ∨
     ∃ n, body (session_get env n u) = Some html) ∧
  semaphore s' = semaphore s ∧ rate_limit s' = rate_limit s.
Proof.
  intros H. apply find_path_inv in H
    as (start & target & _ & Ht & [(_ & _ & ->)|(_ & (b' & Hinv & <-) & _)]).
  - repeat split; auto.
  - destruct Hinv as (_ & _ & _ & _ & I5 & I6 & I7 & I8).
    repeat split; auto.
Qed.

(** X13 on the search from A to C with depth bound 1. *)
Lemma search_keeps_finder_witness :
  ∃ s', find_path example_site 10 page_A page_C 1 new_finder
        = Some (Return (Some [page_A; page_C], s')) ∧
    (∀ u html, cache new_finder !! u = Some html → cache s' !! u = Some html) ∧
    (∀ u html, cache s' !! u = Some html →
       cache new_finder !! u = Some html ∨
       ∃ n, body (session_get example_site n u) = Some html) ∧
    semaphore s' = semaphore new_finder ∧
    rate_limit s' = rate_limit new_finder.
Proof.
  assert (H : ∃ s', find_path example_site 10 page_A page_C 1 new_finder
                    = Some (Return (Some [page_A; page_C], s')))
    by (eexists; vm_compute; reflexivity).
  destruct H as [s' H]. exists s'. split; [exact H|].
  exact (search_keeps_finder _ _ _ _ _ _ _ _ H).
Defined.

(** X14.  With a depth bound of zero or less and different endpoints the
    search finds nothing and fetches nothing: the seed is skipped as too
    deep and the queue is empty after it. *)
Theorem nonpositive_depth_fetches_nothing
    env fuel start_url target_url max_depth s start target :
  normalize_url start_url = Return start →
  normalize_url target_url = Return target →
  start ≠ target →
  (max_depth ≤ 0)%Z →
  find_path env (2 + fuel) start_url target_url max_depth s
  = Some (Return (None, s)).
Proof.
  intros Hs Ht Hne Hd. unfold find_path. rewrite Hs, Ht.
  destruct (String.eqb_spec start target) as [|_]; [contradiction|].
  cbn [Nat.add bfs_loop]. unfold turn at 1. cbn [initial queue length].
  destruct (Z.gtb_spec (Z.of_nat 1) max_depth) as [_|Hle]; [|lia].
  reflexivity.
Qed.

(** X14 on the search from A to D with depth bound 0. *)
Lemma nonpositive_depth_fetches_nothing_witness :
  normalize_url page_A = Return page_A ∧
  normalize_url (page_D +:+ "/") = Return page_D ∧
  page_A ≠ page_D ∧ (0 ≤ 0)%Z ∧
  find_path example_site (2 + 0) page_A (page_D +:+ "/") 0 new_finder
  = Some (Return (None, new_finder)).
Proof.
  assert (Hs : normalize_url page_A = Return page_A) by reflexivity.
  assert (Ht : normalize_url (page_D +:+ "/") = Return page_D) by reflexivity.
  assert (Hne : page_A ≠ page_D) by discriminate.
  split; [exact Hs|]. split; [exact Ht|]. split; [exact Hne|].
  split; [lia|].
  apply (nonpositive_depth_fetches_nothing example_site 0 page_A
           (page_D +:+ "/") 0 new_finder page_A page_D Hs Ht Hne).
  lia.
Defined.





Lemma for_links_finds target_url max_depth path l1 link l2 v q :
  Forall (λ l, ∃ c, normalize_url l = Return c ∧ c ≠ target_url) l1 →
  normalize_url link = Return target_url →
  ∃ v' q', for_links target_url max_depth path (l1 ++ link :: l2) v q
           = Return (Some (path ++ [target_url]), v', q').
Proof.
  intros Hl1 Hlink. revert v q.
  induction Hl1 as [|l l1 (c & Hc & Hne) _ IH]; intros v q; cbn [app for_links].
  - rewrite Hlink. cbn [mbind outcome_bind]. rewrite String.eqb_refl. eauto.
  - rewrite Hc. cbn [mbind outcome_bind].
    destruct (String.eqb_spec c target_url) as [|_]; [contradiction|].
    destruct (bool_decide (c ∉ v) && (Z.of_nat (length path) <? max_depth)%Z);
      apply IH.
Qed.

(** X16.  A link from the start page to the target is found in the first
    turn: when the start page has content, one of its links normalises to
    the target and the links met before it normalise to something else, the
    search returns the two-page path, with the finder as the one fetch left
    it. *)
Theorem direct_link_is_found
    env fuel start_url target_url max_depth s start target html s1
    l1 link l2 :
  normalize_url start_url = Return start →
  normalize_url target_url = Return target →
  start ≠ target →
  (1 ≤ max_depth)%Z →
  get_page_content env start s = Return (Some html, s1) →
  html ≠ EmptyString →
  extract_wikipedia_links env html start = l1 ++ link :: l2 →
  Forall (λ l, ∃ c, normalize_url l = Return c ∧ c ≠ target) l1 →
  normalize_url link = Return target →
  find_path env (S fuel) start_url target_url max_depth s
  = Some (Return (Some [start; target], s1)).
Proof.
  intros Hs Ht Hne Hd Hget Hhtml Hlinks Hl1 Hlink.
  unfold find_path. rewrite Hs, Ht.
  destruct (String.eqb_spec start target) as [|_]; [contradiction|].
  cbn [bfs_loop]. unfold turn. cbn [initial queue visited finder length].
  destruct (Z.gtb_spec (Z.of_nat 1) max_depth) as [Hgt|_]; [lia|].
  rewrite Hget. cbn [mbind outcome_bind].
  destruct html as [|a html]; [contradiction|]. cbn [falsy default]. cbv zeta.
  cbn [from_option id]. rewrite Hlinks.
  match goal with
  | |- context [for_links ?t ?d ?p ?l ?w ?q] =>
      destruct (for_links_finds t d p l1 link l2 w q Hl1 Hlink)
        as (v' & q' & ->)
  end.
  reflexivity.
Qed.

(** X16 on the search from A to C: the link to C comes after the link to B. *)
Lemma direct_link_is_found_witness :
  ∃ s1, get_page_content example_site page_A new_finder
        = Return (Some "<html>A</html>"%string, s1) ∧
    find_path example_site 1 page_A page_C 1 new_finder
    = Some (Return (Some [page_A; page_C], s1)).
Proof.
  assert (H : ∃ s1, get_page_content example_site page_A new_finder
                    = Return (Some "<html>A</html>"%string, s1))
    by (eexists; vm_compute; reflexivity).
  destruct H as [s1 H]. exists s1. split; [exact H|].
  apply (direct_link_is_found example_site 0 page_A page_C 1 new_finder
           page_A page_C "<html>A</html>" s1 [page_B] (page_C +:+ "/") []);
    try reflexivity; try discriminate; try lia; try exact H.
  repeat constructor. exists page_B. split; [reflexivity | discriminate].
Defined.

(** X17.  A start page that cannot be fetched, or has an empty body, is a
    dead end and not an error: the search returns [None] after the one
    fetch. *)
Theorem dead_start_finds_nothing
    env fuel start_url target_url max_depth s start target content s1 :
  normalize_url start_url = Return start →
  normalize_url target_url = Return target →
  start ≠ target →
  (1 ≤ max_depth)%Z →
  get_page_content env start s = Return (content, s1) →
  falsy content = true →
  find_path env (2 + fuel) start_url target_url max_depth s
  = Some (Return (None, s1)).
Proof.
  intros Hs Ht Hne Hd Hget Hfalsy.
  unfold find_path. rewrite Hs, Ht.
  destruct (String.eqb_spec start target) as [|_]; [contradiction|].
  cbn [Nat.add bfs_loop]. unfold turn at 1.
  cbn [initial queue visited finder length].
  destruct (Z.gtb_spec (Z.of_nat 1) max_depth) as [Hgt|_]; [lia|].
  rewrite Hget. cbn [mbind outcome_bind]. rewrite Hfalsy. reflexivity.
Qed.

(** X17 on the search from C, which cannot be fetched. *)
Lemma dead_start_finds_nothing_witness :
  ∃ s1, get_page_content example_site page_C new_finder = Return (None, s1) ∧
    network_log s1 = [page_C] ∧
    find_path example_site (2 + 0) page_C page_A 5 new_finder
    = Some (Return (None, s1)).
Proof.
  assert (H : ∃ s1, get_page_content example_site page_C new_finder
                    = Return (None, s1) ∧ network_log s1 = [page_C])
    by (eexists; vm_compute; split; reflexivity).
  destruct H as (s1 & H & Hlog). exists s1. split; [exact H|].
  split; [exact Hlog|].
  apply (dead_start_finds_nothing example_site 0 page_C page_A 5 new_finder
           page_C page_A None s1);
    try reflexivity; try discriminate; try lia; exact H.
Defined.

(** ** Both directions *)

Lemma find_bidirectional_path_inv env fuel url1 url2 max_depth s p12 p21 s2 :
  find_bidirectional_path env fuel url1 url2 max_depth s
  = Some (Return (p12, p21, s2)) →
  ∃ s1,
    find_path env fuel url1 url2 max_depth s = Some (Return (p12, s1)) ∧
    find_path env fuel url2 url1 max_depth s1 = Some (Return (p21, s2)).
Proof.
  unfold find_bidirectional_path.
  destruct (find_path env fuel url1 url2 max_depth s)
    as [[[p s1]|e|]|]; try discriminate.
  destruct (find_path env fuel url2 url1 max_depth s1)
    as [[[q s2']|e|]|] eqn:H2; try discriminate.
  intros [= <- <- <-]. exists s1. split; [reflexivity | exact H2].
Qed.

(** The ends of a returned path. *)
Lemma find_path_ends env fuel start_url target_url max_depth s path s' :
  find_path env fuel start_url target_url max_depth s
  = Some (Return (Some path, s')) →
  ∃ start target,
    normalize_url start_url = Return start ∧
    normalize_url target_url = Return target ∧
    head path = Some start ∧ last path = Some target.
Proof.
  unfold find_path.
  destruct (normalize_url start_url) as [start|e|] eqn:Hs; [|discriminate..].
  destruct (normalize_url target_url) as [target|e|] eqn:Ht; [|discriminate..].
  exists start, target. split; [reflexivity|]. split; [reflexivity|].
  destruct (String.eqb_spec start target) as [->|Hne].
  - injection H as <- <-. auto.
  - apply bfs_loop_paths with (start_url := start) in H as (_ & H1 & H2 & _);
      [auto|].
    cbn. constructor; [|constructor]. cbn.
    split; [apply NoDup_singleton|]. split; [|split; [|split]].
    + intros x Hx. apply list_elem_of_singleton in Hx as ->.
      apply elem_of_singleton. reflexivity.
    + intros Hx. apply list_elem_of_singleton in Hx. congruence.
    + reflexivity.
    + constructor; [|constructor]. exists start_url. exact Hs.
Qed.

(** What a returning search did to the log and to the cache. *)
Lemma find_path_trace env fuel start_url target_url max_depth s r s' :
  find_path env fuel start_url target_url max_depth s = Some (Return (r, s')) →
  (∃ new,
     network_log s' = network_log s ++ new ∧ NoDup new ∧
     ∀ u, u ∈ new →
       cache s !! u = None ∧
       (is_Some (cache s' !! u) ∨ ∃ n, body (session_get env n u) = None)) ∧
  (∀ u html, cache s !! u = Some html → cache s' !! u = Some html) ∧
  (∀ u html, cache s' !! u = Some html → page_html env s u html).
Proof.
  intros H. apply find_path_inv in H
    as (start & target & _ & Ht & [(_ & _ & ->)|(_ & (b' & Hinv & <-) & _)]).
  - split; [|split; [auto | intros u html Hc; left; exact Hc]].
    exists []. rewrite app_nil_r. split; [reflexivity|].
    split; [constructor|]. intros u Hu. inversion Hu.
  - destruct Hinv as (_ & _ & _ & (new & Hlog & Hnd & Hnew) & I5 & I6 & _).
    split; [|split; [exact I6 | exact I5]].
    exists new. split; [exact Hlog|]. split; [exact Hnd|].
    intros u Hu. destruct (Hnew u Hu) as (_ & _ & Hc & Hb). auto.
Qed.

(** Links seen from a later cache are links seen from the earlier one. *)
Lemma chain_mono env s s1 p :
  (∀ u html, cache s1 !! u = Some html → page_html env s u html) →
  chain env s1 p → chain env s p.
Proof.
  intros Hc. induction p as [|x p IH]; [auto|].
  destruct p as [|y p]; [auto|]. intros [(html & link & Hp & L) Hrest].
  split; [|apply IH, Hrest]. exists html, link. split; [|exact L].
  destruct Hp as [Hp|Hp]; [apply Hc, Hp | right; exact Hp].
Qed.

(** X18.  The two paths of [find_bidirectional_path] run between the same
    two normalised URLs in opposite directions, and each is a chain of links
    over bodies cached at the start or given by the network. *)
Theorem both_ways_paths env fuel url1 url2 max_depth s p12 p21 s2 :
  find_bidirectional_path env fuel url1 url2 max_depth s
  = Some (Return (p12, p21, s2)) →
  ∃ c1 c2,
    normalize_url url1 = Return c1 ∧ normalize_url url2 = Return c2 ∧
    (∀ p, p12 = Some p →
       head p = Some c1 ∧ last p = Some c2 ∧ chain env s p) ∧
    (∀ p, p21 = Some p →
       head p = Some c2 ∧ last p = Some c1 ∧ chain env s p).
Proof.
  intros H. apply find_bidirectional_path_inv in H as (s1 & H1 & H2).
  destruct (find_path_inv _ _ _ _ _ _ _ _ H1) as (c1 & c2 & E1 & E2 & _).
  exists c1, c2. split; [exact E1|]. split; [exact E2|]. split.
  - intros p ->.
    destruct (find_path_ends _ _ _ _ _ _ _ _ H1) as (a & b & Ea & Eb & Hh & Hl).
    split; [congruence|]. split; [congruence|].
    destruct (find_path_inv _ _ _ _ _ _ _ _ H1)
      as (x & y & _ & _ & [(_ & [= ->] & _)|(_ & _ & Hf)]); [exact I|].
    apply (Hf p eq_refl).
  - intros p ->.
    destruct (find_path_ends _ _ _ _ _ _ _ _ H2) as (a & b & Ea & Eb & Hh & Hl).
    split; [congruence|]. split; [congruence|].
    apply chain_mono with s1; [apply (find_path_trace _ _ _ _ _ _ _ _ H1)|].
    destruct (find_path_inv _ _ _ _ _ _ _ _ H2)
      as (x & y & _ & _ & [(_ & [= ->] & _)|(_ & _ & Hf)]); [exact I|].
    apply (Hf p eq_refl).
Qed.

(** X18 on A and D: D is reached from A, and D itself cannot be fetched. *)
Lemma both_ways_paths_witness :
  ∃ s2, find_bidirectional_path example_site 10 page_A page_D 5 new_finder
        = Some (Return (Some [page_A; page_B; page_D], None, s2)) ∧
    ∃ c1 c2,
      normalize_url page_A = Return c1 ∧ normalize_url page_D = Return c2 ∧
      (∀ p, Some [page_A; page_B; page_D] = Some p →
         head p = Some c1 ∧ last p = Some c2 ∧
         chain example_site new_finder p) ∧
      (∀ p, None = Some p →
         head p = Some c2 ∧ last p = Some c1 ∧
         chain example_site new_finder p).
Proof.
  assert (H : ∃ s2,
    find_bidirectional_path example_site 10 page_A page_D 5 new_finder
    = Some (Return (Some [page_A; page_B; page_D], None, s2)))
    by (eexists; vm_compute; reflexivity).
  destruct H as [s2 H]. exists s2. split; [exact H|].
  exact (both_ways_paths _ _ _ _ _ _ _ _ _ H).
Defined.



(** ** Printing a path *)

Lemma formatted_links_length n i path :
  length (formatted_links n i path) = length path.
Proof.
  revert i. induction path as [|u p IH]; intros i; cbn; [reflexivity|].
  rewrite IH. reflexivity.
Qed.

Lemma formatted_links_middle n i middle last :
  1 ≤ i → n = i + length middle + 1 →
  formatted_links n i (middle ++ [last])
  = map (λ u, "[" +:+ u +:+ "]") middle ++ [last].
Proof.
  revert i. induction middle as [|u middle IH]; intros i Hi Hn;
    cbn [app map formatted_links length].
  - destruct (Nat.eqb_spec i 0) as [|_]; [lia|].
    destruct (Nat.eqb_spec i (n - 1)) as [_|Hne]; [reflexivity|].
    cbn in Hn. lia.
  - destruct (Nat.eqb_spec i 0) as [|_]; [lia|].
    destruct (Nat.eqb_spec i (n - 1)) as [He|_]; [cbn in Hn; lia|].
    cbn [orb]. f_equal. apply IH; [lia|]. cbn in Hn. lia.
Qed.

Lemma format_path_join path :
  path ≠ [] →
  format_path path = Some (join " => " (formatted_links (length path) 0 path)).
Proof. destruct path as [|u [|v p]]; [congruence | reflexivity..]. Qed.

(** X20.  [format_path] on a path of two pages or more joins the pages
    with [' => '], the first and the last as they are and every page
    between them in square brackets. *)
Theorem format_path_shape first middle last :
  format_path (first :: middle ++ [last])
  = Some (join " => "
            (first :: map (λ u, "[" +:+ u +:+ "]") middle ++ [last])).
Proof.
  rewrite format_path_join by discriminate.
  cbn [formatted_links length Nat.eqb orb]. do 3 f_equal.
  apply formatted_links_middle; [lia|]. rewrite length_app. cbn. lia.
Qed.

Lemma partition_first c sep' x rest :
  has_char c x = false →
  partition (String c sep') (x +:+ String c sep' +:+ rest) = Some (x, rest).
Proof.
  induction x as [|a x IH]; intros Hx.
  - pose proof (strip_prefix_self (String c sep') rest) as E.
    cbn [String.append] in *. cbn [partition]. rewrite E. reflexivity.
  - cbn in Hx. apply orb_false_iff in Hx as [Ha Hx].
    specialize (IH Hx). cbn [String.append] in *.
    cbn [partition strip_prefix]. rewrite Ascii.eqb_sym, Ha, IH. reflexivity.
Qed.

Lemma partition_none c sep' x :
  has_char c x = false → partition (String c sep') x = None.
Proof.
  induction x as [|a x IH]; intros Hx; [reflexivity|].
  cbn in Hx. apply orb_false_iff in Hx as [Ha Hx].
  cbn [partition strip_prefix]. rewrite Ascii.eqb_sym, Ha, (IH Hx).
  reflexivity.
Qed.

Lemma split_at_first c sep' s b a :
  partition (String c sep') s = Some (b, a) →
  split (String c sep') s = b :: split (String c sep') a.
Proof.
  intros E. rewrite split_equation_2.
  generalize (inspect (partition (String c sep') s)).
  intros [[[b' a']|] e]; cbn; congruence.
Qed.

Lemma split_no_sep c sep' s :
  partition (String c sep') s = None → split (String c sep') s = [s].
Proof.
  intros E. rewrite split_equation_2.
  generalize (inspect (partition (String c sep') s)).
  intros [[[b' a']|] e]; cbn; congruence.
Qed.

(** Splitting a joined list at the separator gives the list back, when no
    element holds the first character of the separator. *)
Lemma split_join c sep' l :
  l ≠ [] → Forall (λ x, has_char c x = false) l →
  split (String c sep') (join (String c sep') l) = l.
Proof.
  induction l as [|x l IH]; [congruence|]. intros _ Hl.
  apply Forall_cons in Hl as [Hx Hl]. destruct l as [|y l].
  - apply split_no_sep, partition_none, Hx.
  - change (join (String c sep') (x :: y :: l))
      with (x +:+ String c sep' +:+ join (String c sep') (y :: l)).
    rewrite (split_at_first _ _ _ _ _ (partition_first c sep' x _ Hx)).
    f_equal. apply IH; [discriminate | exact Hl].
Qed.

Lemma formatted_links_no_space n i path :
  Forall (λ u, has_char " " u = false) path →
  Forall (λ u, has_char " " u = false) (formatted_links n i path).
Proof.
  intros H. revert i. induction H as [|u p Hu _ IH]; intros i; cbn;
    constructor; [|apply IH].
  destruct ((i =? 0) || (i =? n - 1)); [exact Hu|].
  cbn. rewrite has_char_app, Hu. reflexivity.
Qed.

(** The pieces of the printed line are the entries of [formatted_links]. *)
Lemma format_path_split path text :
  Forall (λ u, has_char " " u = false) path →
  format_path path = Some text →
  split " => " text = formatted_links (length path) 0 path.
Proof.
  intros Hp. destruct path as [|u p]; [discriminate|].
  rewrite format_path_join by discriminate. intros E.
  assert (E' : join " => " (formatted_links (length (u :: p)) 0 (u :: p))
               = text) by congruence.
  rewrite <- E'. apply (split_join " " "=> ").
  - cbn. discriminate.
  - apply formatted_links_no_space, Hp.
Qed.

(** X21.  The printed line splits back into its pages: when no URL of the
    path holds a space, [split(' => ')] of the line gives the first page,
    the bracketed pages between, and the last page. *)
Theorem printed_path_splits_back first middle last :
  Forall (λ u, has_char " " u = false) (first :: middle ++ [last]) →
  ∃ text,
    format_path (first :: middle ++ [last]) = Some text ∧
    split " => " text
    = first :: map (λ u, "[" +:+ u +:+ "]") middle ++ [last].
Proof.
  intros Hp. eexists. split; [apply format_path_join; discriminate|].
  rewrite split_join.
  - cbn [formatted_links length Nat.eqb orb]. f_equal.
    apply formatted_links_middle; [lia|]. rewrite length_app. cbn. lia.
  - cbn. discriminate.
  - apply formatted_links_no_space, Hp.
Qed.

(** X21 on the path A, B, D. *)
Lemma printed_path_splits_back_witness :
  Forall (λ u, has_char " " u = false) (page_A :: [page_B] ++ [page_D]) ∧
  ∃ text,
    format_path (page_A :: [page_B] ++ [page_D]) = Some text ∧
    split " => " text
    = page_A :: map (λ u, "[" +:+ u +:+ "]") [page_B] ++ [page_D].
Proof.
  assert (H : Forall (λ u, has_char " " u = false)
                (page_A :: [page_B] ++ [page_D]))
    by (repeat constructor).
  split; [exact H|]. exact (printed_path_splits_back page_A [page_B] page_D H).
Defined.

Lemma append_inj_last u u' c :
  u +:+ String c EmptyString = u' +:+ String c EmptyString → u = u'.
Proof.
  revert u'. induction u as [|a u IH]; intros [|a' u']; cbn.
  - reflexivity.
  - intros [= _ E]. destruct u'; discriminate.
  - intros [= _ E]. destruct u; discriminate.
  - intros [= -> E]. f_equal. apply IH, E.
Qed.

Lemma formatted_links_inj n i path path' :
  formatted_links n i path = formatted_links n i path' → path = path'.
Proof.
  revert i path'. induction path as [|u p IH]; intros i [|u' p']; cbn;
    try discriminate; [reflexivity|].
  intros [= E Erest]. f_equal; [|eapply IH; exact Erest].
  destruct ((i =? 0) || (i =? n - 1)); [exact E|].
  cbn in E. injection E as E. apply append_inj_last in E. exact E.
Qed.

(** X22.  The printed line tells the path: two paths of URLs without
    spaces that [format_path] prints alike are the same path. *)
Theorem format_path_injective path path' text :
  Forall (λ u, has_char " " u = false) path →
  Forall (λ u, has_char " " u = false) path' →
  format_path path = Some text →
  format_path path' = Some text →
  path = path'.
Proof.
  intros Hp Hp' E E'.
  apply (format_path_split _ _ Hp) in E.
  apply (format_path_split _ _ Hp') in E'.
  rewrite E in E'.
  assert (L : length path = length path').
  { apply (f_equal length) in E'.
    rewrite !formatted_links_length in E'. exact E'. }
  rewrite <- L in E'. eapply formatted_links_inj. exact E'.
Qed.

(** X22 on the path A, B, D and its printed line. *)
Lemma format_path_injective_witness :
  Forall (λ u, has_char " " u = false) [page_A; page_B; page_D] ∧
  format_path [page_A; page_B; page_D]
  = Some ("https://en.example.org/wiki/A => [https://en.example.org/wiki/B]"
          +:+ " => https://en.example.org/wiki/D") ∧
  [page_A; page_B; page_D] = [page_A; page_B; page_D].
Proof.
  assert (H : Forall (λ u, has_char " " u = false) [page_A; page_B; page_D])
    by (repeat constructor).
  assert (E : format_path [page_A; page_B; page_D]
    = Some ("https://en.example.org/wiki/A => [https://en.example.org/wiki/B]"
            +:+ " => https://en.example.org/wiki/D")) by reflexivity.
  split; [exact H|]. split; [exact E|].
  exact (format_path_injective _ _ _ H H E E).
Defined.
